(** * ESLint rules: camelcase, new-parens, padded-blocks, valid-typeof

    A shallow embedding of the four rule files of the repository
    ([lib/rules/camelcase.js], [lib/rules/new-parens.js] -- which also
    carries two revisions of padded-blocks --, [lib/rules/valid-typeof.js]
    and the earlier camelcase revision kept next to
    [docs/user-guide/backwards-compatibility.md]) and the properties of
    their specification.

    JavaScript strings are modelled as [string] (sequences of ASCII code
    units), JavaScript objects that the rules mutate (a RegExp's
    [lastIndex], the [reported] array, the report sink of the context) as
    explicit state, and a [TypeError] as [None] in an option monad. *)

From Stdlib Require Import Ascii String List ZArith Lia Bool Arith.
From Stdlib Require Import DecimalString.
Import ListNotations.
Open Scope string_scope.
Open Scope nat_scope.
Set Warnings "-register-all".

(* ================================================================== *)
(** ** JavaScript strings *)

Module JsString.

(** [String.prototype.toUpperCase] on one ASCII code unit. *)
Definition upper_char (c : ascii) : ascii :=
  let n := nat_of_ascii c in
  if (97 <=? n) && (n <=? 122) then ascii_of_nat (n - 32) else c.

Fixpoint toUpperCase (s : string) : string :=
  match s with
  | EmptyString => EmptyString
  | String c r => String (upper_char c) (toUpperCase r)
  end.

(** [s.substring(0, n)] and [s.substring(n)]. *)
Fixpoint take (n : nat) (s : string) : string :=
  match n, s with
  | S k, String c r => String c (take k r)
  | _, _ => EmptyString
  end.

Fixpoint drop (n : nat) (s : string) : string :=
  match n, s with
  | S k, String _ r => drop k r
  | _, _ => s
  end.

(** [s1 + n + s2] needs the decimal rendering of a number. *)
Definition of_nat (n : nat) : string := NilZero.string_of_uint (Nat.to_uint n).

Definition of_Z (z : Z) : string := NilZero.string_of_int (Z.to_int z).

End JsString.

(* ================================================================== *)
(** ** Regular expressions

    The two patterns of camelcase.js are written in the abstract syntax
    below and run by a backtracking matcher in continuation-passing style,
    the way ECMAScript defines pattern matching: a matcher takes the
    current match state and a continuation for the rest of the pattern,
    and a greedy quantifier tries the longest repetition first. *)

Module RegExp.

Inductive Pattern : Type :=
| Bol                                   (* ^  (no multiline flag) *)
| Eol                                   (* $  (no multiline flag) *)
| Class (p : ascii -> bool)             (* one character of a class *)
| Star (p : ascii -> bool)              (* greedy  c*  on a class *)
| Plus (p : ascii -> bool)              (* greedy  c+  on a class *)
| Cat (r1 r2 : Pattern)                 (* r1 r2 *)
| Alt (r1 r2 : Pattern)                 (* r1|r2 *)
| Group (i : nat) (r : Pattern)         (* capturing group number i *)
| NotAhead (r : Pattern).               (* (?!r) *)

(** Character classes of the two patterns. *)
Definition underscore (c : ascii) : bool := Ascii.eqb c "_"%char.
Definition not_underscore (c : ascii) : bool := negb (Ascii.eqb c "_"%char).
(** [.] matches everything but a line terminator. *)
Definition dot (c : ascii) : bool :=
  negb (Ascii.eqb c "010"%char || Ascii.eqb c "013"%char).

(** A match state: the index reached, the input from there on, and the
    captures made so far (latest first). *)
Record MState : Type := mkMState {
  endIndex : nat;
  rest : string;
  captures : list (nat * string)
}.

Definition Cont : Type := MState -> option MState.

(** Greedy repetition of a class, at least [0] times: take one more
    character when possible, and fall back to the continuation here. *)
Fixpoint star (p : ascii -> bool) (k : Cont)
         (i : nat) (s : string) (caps : list (nat * string)) : option MState :=
  match s with
  | String c s' =>
      if p c then
        match star p k (S i) s' caps with
        | Some z => Some z
        | None => k (mkMState i s caps)
        end
      else k (mkMState i s caps)
  | EmptyString => k (mkMState i s caps)
  end.

Fixpoint run (r : Pattern) (k : Cont) (x : MState) : option MState :=
  match r with
  | Bol => if endIndex x =? 0 then k x else None
  | Eol => match rest x with EmptyString => k x | _ => None end
  | Class p =>
      match rest x with
      | String c s' =>
          if p c then k (mkMState (S (endIndex x)) s' (captures x)) else None
      | EmptyString => None
      end
  | Star p => star p k (endIndex x) (rest x) (captures x)
  | Plus p =>
      match rest x with
      | String c s' =>
          if p c then star p k (S (endIndex x)) s' (captures x) else None
      | EmptyString => None
      end
  | Cat r1 r2 => run r1 (run r2 k) x
  | Alt r1 r2 =>
      match run r1 k x with
      | Some z => Some z
      | None => run r2 k x
      end
  | Group i r1 =>
      run r1 (fun y =>
                k (mkMState (endIndex y) (rest y)
                     ((i, JsString.take (endIndex y - endIndex x) (rest x))
                        :: captures y))) x
  | NotAhead r1 =>
      match run r1 Some x with
      | Some _ => None
      | None => k x
      end
  end.

(** The value of capture group [i] of a match. *)
Fixpoint capture (i : nat) (caps : list (nat * string)) : string :=
  match caps with
  | [] => ""
  | (j, v) :: tl => if i =? j then v else capture i tl
  end.

(** One attempt of the whole pattern at index [i] of the input. *)
Definition matchAt (r : Pattern) (i : nat) (s : string) : option MState :=
  run r Some (mkMState i (JsString.drop i s) []).

(** RegExpBuiltinExec for a pattern with the [g] flag: the search starts
    at [lastIndex] and moves right one index at a time; beyond the end of
    the input it fails.  [n] counts the start indices still to try. *)
Fixpoint search (r : Pattern) (s : string) (n i : nat) : option (nat * MState) :=
  match n with
  | 0 => None
  | S n' =>
      match matchAt r i s with
      | Some z => Some (i, z)
      | None => search r s n' (S i)
      end
  end.

Definition exec (r : Pattern) (s : string) (lastIndex : nat)
  : option (nat * MState) :=
  search r s (S (String.length s) - lastIndex) lastIndex.

(** [re.test(s)] for a global pattern: the answer and the new
    [lastIndex]: the end of the match, or 0 after a failure. *)
Definition test (r : Pattern) (s : string) (lastIndex : nat) : bool * nat :=
  match exec r s lastIndex with
  | Some (_, z) => (true, endIndex z)
  | None => (false, 0)
  end.

(** [s.replace(re, f)] for a global pattern: [lastIndex] is first set to
    0, then the pattern is executed until it fails (stepping over an
    empty match), and every match is replaced by what [f] returns for
    it.  [from] is the index up to which the input has been copied. *)
Fixpoint replaceLoop (fuel : nat) (r : Pattern)
         (f : string -> list (nat * string) -> string)
         (s : string) (lastIndex from : nat) : option string :=
  match fuel with
  | 0 => None
  | S fuel' =>
      match exec r s lastIndex with
      | None => Some (JsString.drop from s)
      | Some (pos, z) =>
          let matched := JsString.take (endIndex z - pos) (JsString.drop pos s) in
          let next := if endIndex z =? pos then S (endIndex z) else endIndex z in
          match replaceLoop fuel' r f s next (endIndex z) with
          | None => None
          | Some tl =>
              Some (JsString.take (pos - from) (JsString.drop from s)
                      ++ f matched (captures z) ++ tl)
          end
      end
  end.

Definition replace (r : Pattern)
           (f : string -> list (nat * string) -> string) (s : string) : option string :=
  replaceLoop (String.length s + 2) r f s 0 0.

End RegExp.

(* ================================================================== *)
(** ** lib/rules/camelcase.js: the string helpers *)

Module CamelcaseStrings.
Import RegExp.

(** [/^_*[^_]+(_+)(?!_*$)/g] *)
Definition NON_SURROUNDING_UNDERSCORE : Pattern :=
  Cat Bol
    (Cat (Star underscore)
       (Cat (Plus not_underscore)
          (Cat (Group 1 (Plus underscore))
             (NotAhead (Cat (Star underscore) Eol))))).

(** [/^(_*[^_]+)_+(.)(?:(?!_*$)|$)/g] *)
Definition SNAKE_LETTER : Pattern :=
  Cat Bol
    (Cat (Group 1 (Cat (Star underscore) (Plus not_underscore)))
       (Cat (Plus underscore)
          (Cat (Group 2 (Class dot))
             (Alt (NotAhead (Cat (Star underscore) Eol)) Eol)))).

Definition isUpperCase (name : string) : bool :=
  String.eqb name (JsString.toUpperCase name).

(** [isSnakeCase] reads and writes [NON_SURROUNDING_UNDERSCORE.lastIndex]:
    the pattern has the [g] flag and [test] is called on it.  [&&]
    evaluates the test first, so [lastIndex] is updated in every case. *)
Definition isSnakeCase (name : string) (lastIndex : nat) : bool * nat :=
  let (matched, lastIndex') := test NON_SURROUNDING_UNDERSCORE name lastIndex in
  (matched && negb (isUpperCase name), lastIndex').

(** The replacer [function toUpperCase(_, prefix, letter)]. *)
Definition toUpperCase_replacer (_ : string) (caps : list (nat * string)) : string :=
  capture 1 caps ++ JsString.toUpperCase (capture 2 caps).

Definition snakeToCamelCase (name : string) : option string :=
  replace SNAKE_LETTER toUpperCase_replacer name.

End CamelcaseStrings.

(* ================================================================== *)
(** ** Faults

    Reading a property of [undefined] or [null] throws a [TypeError] and
    ends the callback; a computation that may do so returns an option. *)

Module Fault.

Definition bind {A B : Type} (x : option A) (f : A -> option B) : option B :=
  match x with Some a => f a | None => None end.

Notation "x <- e ;; k" := (bind e (fun x => k))
  (at level 61, e at next level, right associativity).

End Fault.

(* ================================================================== *)
(** ** The syntax tree, reports and fixes *)

Module Ast.

(** The value of a [Literal] node. *)
Inductive JsValue : Type :=
| VString (s : string)
| VNumber (z : Z)
| VBool (b : bool)
| VNull
| VRegExp (source : string).

(** [a === b] on literal values. *)
Definition strict_eq (a b : JsValue) : bool :=
  match a, b with
  | VString x, VString y => String.eqb x y
  | VNumber x, VNumber y => Z.eqb x y
  | VBool x, VBool y => Bool.eqb x y
  | VNull, VNull => true
  | _, _ => false
  end.

(** An ESTree node.  [nid] stands for the identity of the JavaScript
    object ([a === b] on nodes compares [nid]); [kids] holds the child
    nodes under their property names, in visiting order; an array-valued
    property ([body], [cases]) contributes one entry per element. *)
Inductive Node : Type := mkNode {
  nid : nat;
  type : string;
  range : nat * nat;
  name : option string;
  operator : option string;
  value : option JsValue;
  kids : list (string * Node)
}.

Definition same (a b : Node) : bool := nid a =? nid b.

Definition has_type (t : string) (n : Node) : bool := String.eqb (type n) t.

(** [n.k] for a node-valued property: the first child under [k]. *)
Fixpoint lookup (k : string) (l : list (string * Node)) : option Node :=
  match l with
  | [] => None
  | (k', n) :: tl => if String.eqb k k' then Some n else lookup k tl
  end.

Definition field (k : string) (n : Node) : option Node := lookup k (kids n).

(** [n.k] for an array-valued property: all the children under [k]. *)
Definition elements (k : string) (n : Node) : list Node :=
  map snd (filter (fun e => String.eqb k (fst e)) (kids n)).

(** [a.name === b] where [a.name] may be [undefined]. *)
(** [n.operator === op] *)
Definition operator_is (op : string) (n : Node) : bool :=
  match operator n with Some o => String.eqb o op | None => false end.

Definition name_is (a : Node) (b : option string) : bool :=
  match name a, b with
  | Some x, Some y => String.eqb x y
  | None, None => true
  | _, _ => false
  end.

(** A text edit: the half-open range of the source it replaces, and the
    replacement. *)
Record Fix : Type := mkFix {
  fix_range : nat * nat;
  fix_text : string
}.

(** The [fix] property of a report descriptor: absent, or a function
    whose value, when the engine calls it, is an edit ([None] when the
    function faults or returns nothing). *)
Inductive FixFn : Type :=
| NoFix
| FixWith (result : option Fix).

(** What [context.report] receives. *)
Record Report : Type := mkReport {
  rep_node : nat;
  rep_loc : option (Z * Z);
  rep_message : string;
  rep_data : list (string * string);
  rep_fix : FixFn
}.

(** Modelled from the spec: the fix builder (``constructs text-range edits
    (insert/replace/delete) relative to tokens/nodes'') is not among the
    rule files; these are the four operations the rules call. *)
Definition replaceTextRange (r : nat * nat) (text : string) : Fix := mkFix r text.
Definition replaceText (n : Node) (text : string) : Fix :=
  replaceTextRange (range n) text.
Definition insertTextAfterRange (r : nat * nat) (text : string) : Fix :=
  mkFix (snd r, snd r) text.
Definition insertTextBeforeRange (r : nat * nat) (text : string) : Fix :=
  mkFix (fst r, fst r) text.

(** Modelled from the spec: the external engine applies an accepted edit
    to the source text it was computed from. *)
Definition applyFix (f : Fix) (source : string) : string :=
  JsString.take (fst (fix_range f)) source
    ++ fix_text f ++ JsString.drop (snd (fix_range f)) source.

(** Modelled from the spec: the traversal dispatcher (``exactly one
    pre-order depth-first traversal'', parent references set before a rule
    sees a node) is not among the rule files.  [visits anc n] lists the
    nodes in visiting order, each with its ancestors, nearest first. *)
Fixpoint visits (anc : list Node) (n : Node) : list (list Node * Node) :=
  (anc, n) ::
  (fix go (l : list (string * Node)) : list (list Node * Node) :=
     match l with
     | [] => []
     | (_, c) :: tl => (visits (n :: anc) c ++ go tl)%list
     end) (kids n).

(** A rule callback threads the state of its rule instance and may
    fault.  The dispatcher calls the callback registered for a node type
    on every visited node of that type. *)
Fixpoint dispatch {S : Type} (cb : list Node -> Node -> S -> option S)
         (t : string) (vs : list (list Node * Node)) (st : S) : option S :=
  match vs with
  | [] => Some st
  | (anc, n) :: tl =>
      if has_type t n then
        match cb anc n st with
        | Some st' => dispatch cb t tl st'
        | None => None
        end
      else dispatch cb t tl st
  end.

End Ast.

(* ================================================================== *)
(** ** lib/rules/camelcase.js: the rule *)

Module Camelcase.
Import Ast Fault.
Export CamelcaseStrings.

(** [context.options[0]], an object that may have a [properties] key. *)
Record Options : Type := mkOptions { opt_properties : option string }.

(** [options.properties || ""], then anything but ["always"] and
    ["never"] becomes ["always"]. *)
Definition properties_of (config : option Options) : string :=
  let properties :=
    match config with
    | Some o => match opt_properties o with Some p => p | None => "" end
    | None => ""
    end in
  if negb (String.eqb properties "always") && negb (String.eqb properties "never")
  then "always" else properties.

(** The mutable state of one rule instance: the [lastIndex] of
    [NON_SURROUNDING_UNDERSCORE], the [reported] array (nodes by
    identity) and the reports handed to [context.report], oldest first. *)
Record State : Type := mkState {
  lastIndex : nat;
  reported : list nat;
  sink : list Report
}.

Definition init : State := mkState 0 [] [].

(** [reported.indexOf(n) !== -1] *)
Definition is_reported (n : nat) (st : State) : bool :=
  existsb (Nat.eqb n) (reported st).

Definition report (obj : Report) (st : State) : State :=
  if is_reported (rep_node obj) st then st
  else mkState (lastIndex st) (reported st ++ [rep_node obj])%list
               (sink st ++ [obj])%list.

(** [node.name] where a string is needed. *)
Definition name_string (n : Node) : string :=
  match name n with Some s => s | None => "undefined" end.

(** The [MemberExpression] branch: the new value of [isReference]. *)
Definition memberIsReference (anc : list Node) (parent node : Node) : option bool :=
  object <- field "object" parent ;;
  if has_type "Identifier" object && name_is object (name node) then Some false
  else
    effectiveParent <- nth_error anc 1 ;;
    if has_type "AssignmentExpression" effectiveParent then
      right <- field "right" effectiveParent ;;
      if negb (has_type "MemberExpression" right) then Some false
      else
        left <- field "left" effectiveParent ;;
        if has_type "MemberExpression" left then
          property <- field "property" left ;;
          Some (negb (name_is property (name node)))
        else Some true
    else Some true.

(** The condition of the [Property] branch. *)
Definition isRenamedKey (anc : list Node) (parent node : Node) : bool :=
  match nth_error anc 1 with
  | Some grandparent =>
      has_type "ObjectPattern" grandparent
      && match field "key" parent with Some k => same k node | None => false end
      && negb (match field "value" parent with Some v => same v node | None => false end)
  | None => false
  end.

Definition message : string := "Identifier '{{name}}' is not in camel case.".

Definition Identifier (properties : string) (anc : list Node) (node : Node)
           (st : State) : option State :=
  let (snake, lastIndex') := isSnakeCase (name_string node) (lastIndex st) in
  let st := mkState lastIndex' (reported st) (sink st) in
  if negb snake then Some st
  else
    parent <- hd_error anc ;;
    let isReference := has_type "CallExpression" parent in
    isReference <-
      (if negb (String.eqb properties "never") then
         if has_type "MemberExpression" parent then memberIsReference anc parent node
         else if has_type "Property" parent then
           Some (if isRenamedKey anc parent node then true else isReference)
         else Some isReference
       else Some isReference) ;;
    if (isReference : bool) then Some st
    else
      Some (report
              (mkReport (nid node) None message [("name", name_string node)]
                 (FixWith (option_map (replaceText node)
                             (snakeToCamelCase (name_string node)))))
              st).

(** The rule object has the one callback; a run of the rule on a tree. *)
Definition lint (config : option Options) (root : Node) : option State :=
  dispatch (Identifier (properties_of config)) "Identifier" (visits [] root) init.

End Camelcase.

(** The earlier revision of the rule (kept with the user guide): no fix,
    and call arguments are skipped before the name is tested. *)
Module CamelcaseEarlier.
Import Ast Fault.
Import Camelcase.

Definition report (node : Node) (st : State) : State :=
  if negb (is_reported (nid node) st) then
    mkState (lastIndex st) (reported st ++ [nid node])%list
      (sink st ++ [mkReport (nid node) None message
                     [("name", name_string node)] NoFix])%list
  else st.

Definition Identifier (properties : string) (anc : list Node) (node : Node)
           (st : State) : option State :=
  parent <- hd_error anc ;;
  if has_type "CallExpression" parent then Some st
  else
    let (snake, lastIndex') := isSnakeCase (name_string node) (lastIndex st) in
    let st := mkState lastIndex' (reported st) (sink st) in
    if negb snake then Some st
    else
      skip <-
        (if negb (String.eqb properties "never") then
           if has_type "MemberExpression" parent then memberIsReference anc parent node
           else if has_type "Property" parent then Some (isRenamedKey anc parent node)
           else Some false
         else Some false) ;;
      if (skip : bool) then Some st else Some (report node st).

Definition lint (config : option Options) (root : Node) : option State :=
  dispatch (Identifier (properties_of config)) "Identifier" (visits [] root) init.

End CamelcaseEarlier.

(* ================================================================== *)
(** ** Tokens and the source accessor *)

Module Source.
Import Ast.

(** A token or a comment: [loc.start.line], [loc.start.column],
    [loc.end.line], [loc.end.column] are JavaScript numbers. *)
Record Token : Type := mkToken {
  tok_type : string;
  tok_value : string;
  tok_range : nat * nat;
  start_line : Z;
  start_column : Z;
  end_line : Z;
  end_column : Z
}.

(** Modelled from the spec: the source accessor (``read-only view over
    the token stream and source text; answers token before/after X,
    first/last token of node, comment classification'') is not among the
    rule files.  The stream holds tokens and comments in source order. *)
Record SourceCode : Type := mkSourceCode {
  text : string;
  tokensAndComments : list Token
}.

Definition isCommentToken (t : Token) : bool :=
  String.eqb (tok_type t) "Line" || String.eqb (tok_type t) "Block".

Definition within (r : nat * nat) (t : Token) : bool :=
  (fst r <=? fst (tok_range t)) && (snd (tok_range t) <=? snd r).

(** [sourceCode.getTokens(node)]: the tokens (not the comments) inside the
    node's range. *)
Definition getTokens (sc : SourceCode) (n : Node) : list Token :=
  filter (fun t => negb (isCommentToken t) && within (range n) t)
         (tokensAndComments sc).

Definition getFirstToken (sc : SourceCode) (n : Node) : option Token :=
  hd_error (getTokens sc n).

Definition getLastToken (sc : SourceCode) (n : Node) : option Token :=
  hd_error (rev (getTokens sc n)).

(** Everything after a range, nearest first; everything before it,
    nearest first. *)
Definition after (sc : SourceCode) (r : nat * nat) : list Token :=
  filter (fun t => snd r <=? fst (tok_range t)) (tokensAndComments sc).

Definition before (sc : SourceCode) (r : nat * nat) : list Token :=
  rev (filter (fun t => snd (tok_range t) <=? fst r) (tokensAndComments sc)).

(** [sourceCode.getTokenBefore(node)]: the nearest token (not comment)
    that ends before the node starts. *)
Definition getTokenBefore (sc : SourceCode) (n : Node) : option Token :=
  hd_error (filter (fun t => negb (isCommentToken t)) (before sc (range n))).

Definition getTokenOrCommentAfter (sc : SourceCode) (t : Token) : option Token :=
  hd_error (after sc (tok_range t)).

Definition getTokenOrCommentBefore (sc : SourceCode) (t : Token) : option Token :=
  hd_error (before sc (tok_range t)).

End Source.

(* ================================================================== *)
(** ** lib/rules/new-parens.js *)

Module NewParens.
Import Ast Source.

Definition isValue (value : string) (token : Token) : bool :=
  String.eqb (tok_value token) value.

Definition message : string := "Missing '()' invoking a constructor".

(** The [NewExpression] callback; the state of the rule is the list of
    reports handed to [context.report]. *)
Definition NewExpression (sc : SourceCode) (node : Node)
           (sink : list Report) : list Report :=
  let tokens := getTokens sc node in
  let parens := existsb (isValue "(") tokens && existsb (isValue ")") tokens in
  if negb parens then
    (sink ++ [mkReport (nid node) None message []
                (FixWith (Some (insertTextAfterRange (range node) "()")))])%list
  else sink.

End NewParens.

(* ================================================================== *)
(** ** lib/rules/valid-typeof.js *)

Module ValidTypeof.
Import Ast Fault.

Definition VALID_TYPES : list string :=
  ["symbol"; "undefined"; "object"; "boolean"; "number"; "string"; "function"].

Definition OPERATORS : list string := ["=="; "==="; "!="; "!=="].

(** [context.options[0]], an object that may have an [allow] array. *)
Record Options : Type := mkOptions { opt_allow : option (list string) }.

Definition customTypes (config : option Options) : list string :=
  match config with
  | Some o => match opt_allow o with Some l => l | None => [] end
  | None => []
  end.

(** [array.indexOf(v) !== -1] on an array of strings: [v] is compared
    with [===]; [v] may be [undefined]. *)
Definition includes (array : list string) (v : option JsValue) : bool :=
  match v with
  | Some v => existsb (fun s => strict_eq (VString s) v) array
  | None => false
  end.

Definition includes_operator (array : list string) (v : option string) : bool :=
  match v with
  | Some v => existsb (String.eqb v) array
  | None => false
  end.

Definition message : string := "Invalid typeof comparison value".

Definition UnaryExpression (config : option Options) (anc : list Node)
           (node : Node) (sink : list Report) : option (list Report) :=
  if operator_is "typeof" node then
    parent <- hd_error anc ;;
    if has_type "BinaryExpression" parent
       && includes_operator OPERATORS (operator parent) then
      sibling <-
        (if match field "left" parent with Some l => same l node | None => false end
         then field "right" parent else field "left" parent) ;;
      if has_type "Literal" sibling then
        if negb (includes VALID_TYPES (value sibling))
           && negb (includes (customTypes config) (value sibling))
        then Some (sink ++ [mkReport (nid sibling) None message [] NoFix])%list
        else Some sink
      else Some sink
    else Some sink
  else Some sink.

End ValidTypeof.

(* ================================================================== *)
(** ** padded-blocks, first revision (new-parens.js, second part) *)

Module PaddedBlocks.
Import Ast Source Fault.

(** [context.options[0]]: a string, or an object with some of the keys
    [blocks], [switches], [classes]. *)
Inductive Config : Type :=
| CString (s : string)
| CObject (blocks switches classes : option string).

(** The [options] object: a key is present or not, and holds a boolean. *)
Record Options : Type := mkOptions {
  blocks : option bool;
  switches : option bool;
  classes : option bool
}.

Definition is_always (s : string) : bool := String.eqb s "always".

Definition options_of (option0 : option Config) : Options :=
  let config :=
    match option0 with
    | None => CString "always"
    | Some (CString "") => CString "always"
    | Some c => c
    end in
  match config with
  | CString c => mkOptions (Some (is_always c)) None None
  | CObject b s c =>
      mkOptions (option_map is_always b) (option_map is_always s)
                (option_map is_always c)
  end.

Definition ALWAYS_MESSAGE : string := "Block must be padded by blank lines.".
Definition NEVER_MESSAGE : string := "Block must not be padded by blank lines.".

(** [node.cases[0]] is [undefined] for an empty list, and the accessor
    faults on it. *)
Definition getOpenBrace (sc : SourceCode) (node : Node) : option Token :=
  if has_type "SwitchStatement" node then
    case0 <- hd_error (elements "cases" node) ;;
    getTokenBefore sc case0
  else getFirstToken sc node.

Definition isComment (t : Token) : bool :=
  String.eqb (tok_type t) "Line" || String.eqb (tok_type t) "Block".

(** The [do ... while] loop walks the stream away from the token, one
    token or comment at a time, while it sees comments on the token's
    line; running off the stream faults on [adjacentToken.loc]. *)
Fixpoint adjacent (line_of : Token -> Z) (tokenLine : Z) (stream : list Token)
  : option Token :=
  match stream with
  | [] => None
  | adjacentToken :: tl =>
      if (line_of adjacentToken =? tokenLine)%Z && isComment adjacentToken
      then adjacent line_of tokenLine tl
      else Some adjacentToken
  end.

Definition getTokenPadding (sc : SourceCode) (token : Token) (dir : Z) : option Z :=
  let tokenLine := if (dir =? 1)%Z then start_line token else end_line token in
  let dir := if negb (dir =? 1)%Z && negb (dir =? -1)%Z then 1%Z else dir in
  adjacentToken <-
    (if (dir =? 1)%Z
     then adjacent start_line tokenLine (after sc (tok_range token))
     else adjacent end_line tokenLine (before sc (tok_range token))) ;;
  let nonBlankLine := start_line adjacentToken in
  Some (Z.abs (nonBlankLine - dir - tokenLine)).

(** [None] is the [throw] of the default case; inside, the value of the
    option, which is [undefined] when the key is absent. *)
Definition requirePaddingFor (options : Options) (node : Node)
  : option (option bool) :=
  if has_type "BlockStatement" node then Some (blocks options)
  else if has_type "SwitchStatement" node then Some (switches options)
  else if has_type "ClassBody" node then Some (classes options)
  else None.

Definition truthy (v : option bool) : bool :=
  match v with Some b => b | None => false end.

Definition foundMsg_of (blockTopPadding : Z) : string :=
  if (1 <? blockTopPadding)%Z
  then " (" ++ JsString.of_Z blockTopPadding ++ " blank lines found)"
  else "".

(** [context.report({ node, loc: { line, column }, message, fix })] *)
Definition report_at (node : Node) (line column : Z) (msg : string)
           (fix_fn : FixFn) (sink : list Report) : list Report :=
  (sink ++ [mkReport (nid node) (Some (line, column)) msg [] fix_fn])%list.

Definition checkPadding (sc : SourceCode) (options : Options) (node : Node)
           (sink : list Report) : option (list Report) :=
  openBrace <- getOpenBrace sc node ;;
  closeBrace <- getLastToken sc node ;;
  blockTopPadding <- getTokenPadding sc openBrace 1 ;;
  blockBottomPadding <- getTokenPadding sc closeBrace (-1) ;;
  let foundMsg := foundMsg_of blockTopPadding in
  required <- requirePaddingFor options node ;;
  if truthy required then
    let sink :=
      if (blockTopPadding =? 0)%Z
      then report_at node (start_line openBrace) (start_column openBrace)
                     ALWAYS_MESSAGE NoFix sink
      else sink in
    let sink :=
      if (blockBottomPadding =? 0)%Z
      then report_at node (end_line closeBrace) (end_column closeBrace - 1)
                     ALWAYS_MESSAGE NoFix sink
      else sink in
    Some sink
  else
    let sink :=
      if negb (blockTopPadding =? 0)%Z
      then report_at node (start_line openBrace + 1) 0
                     (NEVER_MESSAGE ++ foundMsg) NoFix sink
      else sink in
    let sink :=
      if negb (blockBottomPadding =? 0)%Z
      then report_at node (end_line closeBrace - 1) 0
                     (NEVER_MESSAGE ++ foundMsg) NoFix sink
      else sink in
    Some sink.

Definition Callback : Type := Node -> list Report -> option (list Report).

(** The object [create] returns: a callback per node type, when
    registered. *)
Record Rule : Type := mkRule {
  SwitchStatement : option Callback;
  BlockStatement : option Callback;
  ClassBody : option Callback
}.

Definition hasOwnProperty {A : Type} (key : option A) : bool :=
  match key with Some _ => true | None => false end.

Definition create (sc : SourceCode) (option0 : option Config) : Rule :=
  let options := options_of option0 in
  mkRule
    (if hasOwnProperty (switches options) then
       Some (fun node sink =>
               if List.length (elements "cases" node) =? 0 then Some sink
               else checkPadding sc options node sink)
     else None)
    (if hasOwnProperty (blocks options) then
       Some (fun node sink =>
               if List.length (elements "body" node) =? 0 then Some sink
               else checkPadding sc options node sink)
     else None)
    (if hasOwnProperty (classes options) then
       Some (fun node sink =>
               if List.length (elements "body" node) =? 0 then Some sink
               else checkPadding sc options node sink)
     else None).

End PaddedBlocks.

(* ================================================================== *)
(** ** padded-blocks, second revision with fixes (new-parens.js, third
     part).  Options, messages, [getOpenBrace], [isComment] and
     [requirePaddingFor] are the same text as in the first revision. *)

Module PaddedBlocksFix.
Import Ast Source Fault.
Import PaddedBlocks.

Definition getTokenPadding (sc : SourceCode) (token : Token) (dir : Z) : option Z :=
  let tokenLine := if (dir =? 1)%Z then start_line token else end_line token in
  let dir := if negb (dir =? 1)%Z && negb (dir =? -1)%Z then 1%Z else dir in
  adjacentToken <-
    (if (dir =? 1)%Z
     then adjacent start_line tokenLine (after sc (tok_range token))
     else adjacent end_line tokenLine (before sc (tok_range token))) ;;
  let adjacentTokenLine :=
    if (dir =? 1)%Z then start_line adjacentToken else end_line adjacentToken in
  let newLines := (dir * (adjacentTokenLine - tokenLine))%Z in
  Some (newLines - Z.min newLines 1)%Z.

(** [dir] may be [undefined] here.  [adjacentTokenLine] is never
    assigned, so the loop condition is false after the first step, and
    the result is the neighbour itself, [null] at either end. *)
Definition getAdjacentLineToken (sc : SourceCode) (token : Token)
           (dir : option Z) : option Token :=
  let dir :=
    match dir with
    | Some d => if negb (d =? 1)%Z && negb (d =? -1)%Z then 1%Z else d
    | None => 1%Z
    end in
  if (dir =? 1)%Z then getTokenOrCommentAfter sc token
  else getTokenOrCommentBefore sc token.

Definition removePadding (sc : SourceCode) (token : Token) (dir : Z) : option Fix :=
  let adjacentToken := getAdjacentLineToken sc token (Some dir) in
  let linebreak := String "010" "" in
  if (dir =? 1)%Z then
    a <- adjacentToken ;;
    Some (replaceTextRange (snd (tok_range token), fst (tok_range a)) linebreak)
  else if (dir =? -1)%Z then
    a <- adjacentToken ;;
    Some (replaceTextRange (snd (tok_range a), fst (tok_range token)) linebreak)
  else None.

Definition addPadding (sc : SourceCode) (node : Token) (dir : Z) : option Fix :=
  let adjacentToken := getAdjacentLineToken sc node None in
  let padding := String "010" "" in
  a <- adjacentToken ;;
  if (dir =? 1)%Z
  then Some (insertTextBeforeRange (tok_range a) padding)
  else Some (insertTextAfterRange (tok_range a) padding).

Definition checkPadding (sc : SourceCode) (options : Options) (node : Node)
           (sink : list Report) : option (list Report) :=
  openBrace <- getOpenBrace sc node ;;
  closeBrace <- getLastToken sc node ;;
  blockTopPadding <- getTokenPadding sc openBrace 1 ;;
  blockBottomPadding <- getTokenPadding sc closeBrace (-1) ;;
  let foundMsg := foundMsg_of blockTopPadding in
  required <- requirePaddingFor options node ;;
  if truthy required then
    let sink :=
      if (blockTopPadding =? 0)%Z
      then report_at node (start_line openBrace) (start_column openBrace)
                     ALWAYS_MESSAGE (FixWith (addPadding sc openBrace 1)) sink
      else sink in
    let sink :=
      if (blockBottomPadding =? 0)%Z
      then report_at node (end_line closeBrace) (end_column closeBrace - 1)
                     ALWAYS_MESSAGE (FixWith (addPadding sc closeBrace (-1))) sink
      else sink in
    Some sink
  else
    let sink :=
      if negb (blockTopPadding =? 0)%Z
      then report_at node (start_line openBrace + 1) 0
                     (NEVER_MESSAGE ++ foundMsg)
                     (FixWith (removePadding sc openBrace 1)) sink
      else sink in
    let sink :=
      if negb (blockBottomPadding =? 0)%Z
      then report_at node (end_line closeBrace - blockBottomPadding) 0
                     (NEVER_MESSAGE ++ foundMsg)
                     (FixWith (removePadding sc closeBrace (-1))) sink
      else sink in
    Some sink.

Definition create (sc : SourceCode) (option0 : option Config) : Rule :=
  let options := options_of option0 in
  mkRule
    (if hasOwnProperty (switches options) then
       Some (fun node sink =>
               if List.length (elements "cases" node) =? 0 then Some sink
               else checkPadding sc options node sink)
     else None)
    (if hasOwnProperty (blocks options) then
       Some (fun node sink =>
               if List.length (elements "body" node) =? 0 then Some sink
               else checkPadding sc options node sink)
     else None)
    (if hasOwnProperty (classes options) then
       Some (fun node sink =>
               if List.length (elements "body" node) =? 0 then Some sink
               else checkPadding sc options node sink)
     else None).

End PaddedBlocksFix.

(** Sample programs. *)
Module Samples.
Import Ast.

Definition ident (i : nat) (r : nat * nat) (n : string) : Node :=
  mkNode i "Identifier" r (Some n) None None [].

Definition member (i : nat) (r : nat * nat) (o p : Node) : Node :=
  mkNode i "MemberExpression" r None None None [("object", o); ("property", p)].

Definition exprStmt (i : nat) (r : nat * nat) (e : Node) : Node :=
  mkNode i "ExpressionStatement" r None None None [("expression", e)].

Definition program (r : nat * nat) (body : list Node) : Node :=
  mkNode 0 "Program" r None None None (map (fun n => ("body", n)) body).

(** [c_d; a_b.a_b;] *)
Definition prog_member : Node :=
  program (0, 13)
    [ exprStmt 1 (0, 4) (ident 2 (0, 3) "c_d");
      exprStmt 3 (5, 13)
        (member 4 (5, 12) (ident 5 (5, 8) "a_b") (ident 6 (9, 12) "a_b")) ].

(** [a_b.a_b;] *)
Definition prog_member_alone : Node :=
  program (0, 8)
    [ exprStmt 3 (0, 8)
        (member 4 (0, 7) (ident 5 (0, 3) "a_b") (ident 6 (4, 7) "a_b")) ].

(** [a_b; c_d;] *)
Definition prog_two : Node :=
  program (0, 9)
    [ exprStmt 1 (0, 4) (ident 2 (0, 3) "a_b");
      exprStmt 3 (5, 9) (ident 4 (5, 8) "c_d") ].

(** [({ a_b } = obj);]: in the shorthand property the key and the value
    are the same node. *)
Definition prog_shorthand : Node :=
  let a_b := ident 5 (3, 6) "a_b" in
  program (0, 17)
    [ exprStmt 1 (0, 17)
        (mkNode 2 "AssignmentExpression" (1, 15) None (Some "=") None
           [ ("left", mkNode 3 "ObjectPattern" (1, 8) None None None
                        [("properties",
                           mkNode 4 "Property" (3, 6) None None None
                             [("key", a_b); ("value", a_b)])]);
             ("right", ident 6 (12, 15) "obj") ]) ].

End Samples.

(** Sample sources with their tokens. *)
Module TokenSamples.
Import Ast Source Samples.

Definition nl : string := String "010" "".

(** A token on one line: type, value, range, line, column. *)
Definition tok (t v : string) (r : nat * nat) (line column : Z) : Token :=
  mkToken t v r line column line (column + Z.of_nat (snd r - fst r)).

(** The block [{], blank, [a();], blank, blank, [}]: one blank line at
    the top and two at the bottom. *)
Definition block_source : SourceCode :=
  mkSourceCode ("{" ++ nl ++ nl ++ "a();" ++ nl ++ nl ++ nl ++ "}")
    [ tok "Punctuator" "{" (0, 1) 1 0;
      tok "Identifier" "a" (3, 4) 3 0;
      tok "Punctuator" "(" (4, 5) 3 1;
      tok "Punctuator" ")" (5, 6) 3 2;
      tok "Punctuator" ";" (6, 7) 3 3;
      tok "Punctuator" "}" (10, 11) 6 0 ].

Definition block_node : Node :=
  mkNode 1 "BlockStatement" (0, 11) None None None
    [("body", exprStmt 2 (3, 7)
                (mkNode 3 "CallExpression" (3, 6) None None None
                   [("callee", ident 4 (3, 4) "a")]))].

Definition newExpr (r : nat * nat) (callee : Node) (args : list Node) : Node :=
  mkNode 1 "NewExpression" r None None None
    (("callee", callee) :: map (fun a => ("arguments", a)) args).

(** [new Foo] *)
Definition new_Foo_source : SourceCode :=
  mkSourceCode "new Foo"
    [ tok "Keyword" "new" (0, 3) 1 0; tok "Identifier" "Foo" (4, 7) 1 4 ].
Definition new_Foo : Node := newExpr (0, 7) (ident 2 (4, 7) "Foo") [].

(** [new Foo()] *)
Definition new_Foo_call_source : SourceCode :=
  mkSourceCode "new Foo()"
    [ tok "Keyword" "new" (0, 3) 1 0; tok "Identifier" "Foo" (4, 7) 1 4;
      tok "Punctuator" "(" (7, 8) 1 7; tok "Punctuator" ")" (8, 9) 1 8 ].
Definition new_Foo_call : Node := newExpr (0, 9) (ident 2 (4, 7) "Foo") [].

(** [new Foo(1)] *)
Definition new_Foo_1_source : SourceCode :=
  mkSourceCode "new Foo(1)"
    [ tok "Keyword" "new" (0, 3) 1 0; tok "Identifier" "Foo" (4, 7) 1 4;
      tok "Punctuator" "(" (7, 8) 1 7; tok "Numeric" "1" (8, 9) 1 8;
      tok "Punctuator" ")" (9, 10) 1 9 ].
Definition new_Foo_1 : Node :=
  newExpr (0, 10) (ident 2 (4, 7) "Foo")
    [mkNode 3 "Literal" (8, 9) None None (Some (VNumber 1)) []].

(** [new Foo[<a>(</a>]]: a constructor without an argument list whose
    member access holds a JSX element with the text [(]. *)
Definition new_jsx_source : SourceCode :=
  mkSourceCode "new Foo[<a>(</a>]"
    [ tok "Keyword" "new" (0, 3) 1 0; tok "Identifier" "Foo" (4, 7) 1 4;
      tok "Punctuator" "[" (7, 8) 1 7; tok "Punctuator" "<" (8, 9) 1 8;
      tok "JSXIdentifier" "a" (9, 10) 1 9; tok "Punctuator" ">" (10, 11) 1 10;
      tok "JSXText" "(" (11, 12) 1 11; tok "Punctuator" "<" (12, 13) 1 12;
      tok "Punctuator" "/" (13, 14) 1 13; tok "JSXIdentifier" "a" (14, 15) 1 14;
      tok "Punctuator" ">" (15, 16) 1 15; tok "Punctuator" "]" (16, 17) 1 16 ].
Definition new_jsx : Node :=
  newExpr (0, 17)
    (mkNode 2 "MemberExpression" (4, 17) None None None
       [("object", ident 3 (4, 7) "Foo");
        ("property", mkNode 4 "JSXElement" (8, 16) None None None [])])
    [].

(** [typeof x === "..."]: the [typeof] node and its parent. *)
Definition typeof_x : Node :=
  mkNode 2 "UnaryExpression" (0, 8) None (Some "typeof") None
    [("argument", ident 3 (7, 8) "x")].

Definition compare (op : string) (lit : string) : Node :=
  mkNode 1 "BinaryExpression" (0, 15 + String.length lit) None (Some op) None
    [("left", typeof_x);
     ("right", mkNode 4 "Literal" (13, 15 + String.length lit) None None
                 (Some (VString lit)) [])].

End TokenSamples.

(* ================================================================== *)
(** ** Notions used in the statements *)

Module CamelcaseNotions.
Import Ast Camelcase.

(** The nodes of the reports are the [reported] array, which holds no node
    twice. *)
Definition once (st : State) : Prop :=
  map rep_node (sink st) = reported st /\ NoDup (reported st).

Definition a_b_report : Report :=
  mkReport 5 None message [("name", "a_b")] NoFix.

End CamelcaseNotions.

Module NewParensNotions.
Import Ast Source NewParens.

(** The claim of the specification at one node: a report is emitted
    exactly when the token span holds neither a [(] nor a [)]. *)
Definition reports_iff_neither (sc : SourceCode) (node : Node) : Prop :=
  NewExpression sc node [] <> []
  <-> (existsb (isValue "(") (getTokens sc node) = false
       /\ existsb (isValue ")") (getTokens sc node) = false).

End NewParensNotions.

Module ValidTypeofNotions.
Import Ast ValidTypeof.

(** The opposite operand of [node] in the comparison [parent]. *)
Definition opposite (parent node : Node) : option Node :=
  match field "left" parent, field "right" parent with
  | Some l, Some r => if same l node then Some r else Some l
  | _, _ => None
  end.

(** The value is one of the seven type names or is on the allow-list. *)
Definition known (allow : list string) (v : option JsValue) : Prop :=
  exists s, v = Some (VString s)
            /\ (In s ["symbol"; "undefined"; "object"; "boolean"; "number";
                      "string"; "function"]
                \/ In s allow).

Definition allow_bigint : option Options := Some (mkOptions (Some ["bigint"])).

End ValidTypeofNotions.

Module PaddedBlocksNotions.
Import Ast Source Samples TokenSamples PaddedBlocks.

(** Running a registered callback; an unregistered one is never called. *)
Definition call (cb : option Callback) (node : Node) (sink : list Report)
  : option (list Report) :=
  match cb with
  | Some f => f node sink
  | None => Some sink
  end.

(** What a run of [checkPadding] adds under ["always"]: one report with
    the message of ["always"] for each side without a blank line. *)
Definition pads_both_sides (result : option (list Report)) (sink : list Report)
           (top bottom : Z) : Prop :=
  exists added,
    result = Some (sink ++ added)%list
    /\ Forall (fun r => rep_message r = "Block must be padded by blank lines.") added
    /\ List.length added
       = (if (top =? 0)%Z then 1 else 0) + (if (bottom =? 0)%Z then 1 else 0).

Definition never : option Config := Some (CString "never").

Definition all_never : option Config :=
  Some (CObject (Some "never") (Some "never") (Some "never")).

Definition open_brace : Token := tok "Punctuator" "{" (0, 1) 1 0.

Definition close_brace : Token := tok "Punctuator" "}" (10, 11) 6 0.

(** The switch without cases, [switch (a) {}]. *)
Definition empty_source : SourceCode :=
  mkSourceCode "switch (a) {}"
    [ tok "Keyword" "switch" (0, 6) 1 0; tok "Punctuator" "(" (7, 8) 1 7;
      tok "Identifier" "a" (8, 9) 1 8; tok "Punctuator" ")" (9, 10) 1 9;
      tok "Punctuator" "{" (11, 12) 1 11; tok "Punctuator" "}" (12, 13) 1 12 ].

Definition empty_switch : Node :=
  mkNode 1 "SwitchStatement" (0, 13) None None None
    [("discriminant", ident 2 (8, 9) "a")].

(** The block [{], [x();], [}] without blank lines. *)
Definition tight_source : SourceCode :=
  mkSourceCode ("{" ++ nl ++ "x();" ++ nl ++ "}")
    [ tok "Punctuator" "{" (0, 1) 1 0;
      tok "Identifier" "x" (2, 3) 2 0;
      tok "Punctuator" "(" (3, 4) 2 1;
      tok "Punctuator" ")" (4, 5) 2 2;
      tok "Punctuator" ";" (5, 6) 2 3;
      tok "Punctuator" "}" (7, 8) 3 0 ].

Definition tight_block : Node :=
  mkNode 1 "BlockStatement" (0, 8) None None None
    [("body", exprStmt 2 (2, 6)
                (mkNode 3 "CallExpression" (2, 5) None None None
                   [("callee", ident 4 (2, 3) "x")]))].

End PaddedBlocksNotions.

(* ================================================================== *)
(** ** The shape of a snake-cased name, in the words of the specification *)

Module SnakeShape.
Import RegExp.

Fixpoint all_in (p : ascii -> bool) (s : string) : bool :=
  match s with
  | EmptyString => true
  | String c r => p c && all_in p r
  end.

(** ``Some leading run of underscores, then a non-underscore run, then
    one-or-more underscores not immediately followed by end-of-string'':
    what follows the separating underscores is not a run of underscores
    that lasts to the end of the name. *)
Definition separated (s : string) : Prop :=
  exists lead word sep tail,
    s = lead ++ word ++ sep ++ tail
    /\ all_in underscore lead = true
    /\ word <> "" /\ all_in not_underscore word = true
    /\ sep <> "" /\ all_in underscore sep = true
    /\ all_in underscore tail = false.

End SnakeShape.

(* ================================================================== *)
(** ** Notions used in the further properties *)

Module NameNotions.



(** A string does not begin with a character of the class [p]. *)
Definition stops (p : ascii -> bool) (v : string) : Prop :=
  forall c v', v = String c v' -> p c = false.

End NameNotions.

Module RuleNotions.
Import Ast Samples Camelcase SnakeShape.

(** A report of the camelcase rule is justified in a tree: it is on an
    identifier that the traversal visits, whose name has the separated shape
    and is not its own upper-case form, and it carries the message of the
    rule, the name, and the fix that [fix_of] gives for the node. *)
Definition justified (fix_of : Node -> FixFn) (root : Node) (r : Report) : Prop :=
  exists anc n,
    In (anc, n) (visits [] root)
    /\ type n = "Identifier"
    /\ rep_node r = nid n
    /\ separated (name_string n)
    /\ name_string n <> JsString.toUpperCase (name_string n)
    /\ rep_message r = "Identifier '{{name}}' is not in camel case."
    /\ rep_data r = [("name", name_string n)]
    /\ rep_fix r = fix_of n.

(** The fix of the current revision: the node's text gives way to the
    converted name. *)
Definition rename_fix (n : Node) : FixFn :=
  FixWith (option_map (fun text => mkFix (range n) text)
             (snakeToCamelCase (name_string n))).

(** [x.a_b;] *)
Definition x_dot_a_b : Node := member 4 (0, 5) (ident 5 (0, 1) "x") (ident 6 (2, 5) "a_b").

Definition prog_property : Node := program (0, 6) [exprStmt 3 (0, 6) x_dot_a_b].

(** [f(a_b);] *)
Definition call_f_a_b : Node :=
  mkNode 4 "CallExpression" (0, 6) None None None
    [("callee", ident 5 (0, 1) "f"); ("arguments", ident 6 (2, 5) "a_b")].

End RuleNotions.

Module TypeofNotions.
Import Ast Samples TokenSamples.

(** The comparison [l op r]. *)
Definition comparison (id : nat) (op : string) (l r : Node) : Node :=
  mkNode id "BinaryExpression" (fst (range l), snd (range r)) None (Some op) None
    [("left", l); ("right", r)].

Definition literal (id : nat) (v : JsValue) : Node :=
  mkNode id "Literal" (13, 14) None None (Some v) [].

(** A literal value that is not a string. *)
Definition not_a_string (v : option JsValue) : Prop :=
  forall s, v <> Some (VString s).

End TypeofNotions.

Module FixNotions.
Import Ast Source Samples TokenSamples.

(** The block [{], [x();], [}] followed by [y;] on the next line. *)
Definition followed_source : SourceCode :=
  mkSourceCode ("{" ++ nl ++ "x();" ++ nl ++ "}" ++ nl ++ "y;")
    [ tok "Punctuator" "{" (0, 1) 1 0;
      tok "Identifier" "x" (2, 3) 2 0;
      tok "Punctuator" "(" (3, 4) 2 1;
      tok "Punctuator" ")" (4, 5) 2 2;
      tok "Punctuator" ";" (5, 6) 2 3;
      tok "Punctuator" "}" (7, 8) 3 0;
      tok "Identifier" "y" (9, 10) 4 0;
      tok "Punctuator" ";" (10, 11) 4 1 ].

(** Every token and comment of the stream ends where it starts or later. *)
Definition ranges_ordered (sc : SourceCode) : Prop :=
  Forall (fun t => fst (tok_range t) <= snd (tok_range t)) (tokensAndComments sc).

(** An edit that writes one line break. *)
Definition line_break_only (f : FixFn) : Prop :=
  exists result, f = FixWith result
                 /\ forall e, result = Some e -> fix_text e = String "010" "".

End FixNotions.

(* ================================================================== *)
(** * Properties *)

(** ** Anchored patterns with the [g] flag *)

Section Anchored.
Import RegExp.
Variable r : Pattern.

(** [^] cannot match to the right of index 0. *)
Lemma matchAt_anchored (s : string) (i : nat) :
  0 < i -> matchAt (Cat Bol r) i s = None.
Proof.
  intros Hi. unfold matchAt. simpl.
  destruct i as [|i]; [lia | reflexivity].
Qed.

Lemma search_anchored (s : string) (n i : nat) :
  0 < i -> search (Cat Bol r) s n i = None.
Proof.
  revert i. induction n as [|n IH]; intros i Hi; simpl.
  - reflexivity.
  - rewrite matchAt_anchored by assumption. apply IH. lia.
Qed.

(** A search that starts at a stale [lastIndex] fails, whatever the
    input, and resets [lastIndex]. *)
Lemma test_anchored_stale (s : string) (i : nat) :
  0 < i -> test (Cat Bol r) s i = (false, 0).
Proof.
  intros Hi. unfold test, exec. now rewrite search_anchored.
Qed.

(** A match can only start at index 0. *)
Lemma exec_anchored_index (s : string) (i pos : nat) (z : MState) :
  exec (Cat Bol r) s i = Some (pos, z) -> i = 0 /\ pos = 0.
Proof.
  unfold exec. destruct i as [|i].
  - destruct (S (String.length s) - 0) as [|n] eqn:E; simpl; [discriminate|].
    destruct (matchAt (Cat Bol r) 0 s) as [z'|].
    + intros H. inversion H. auto.
    + rewrite search_anchored by lia. discriminate.
  - rewrite search_anchored by lia. discriminate.
Qed.

(** [replace] with an anchored pattern runs the pattern at most twice:
    the result is always defined, and at most one match is replaced. *)
Lemma replace_anchored (f : string -> list (nat * string) -> string) (s : string) :
  replace (Cat Bol r) f s =
  Some match exec (Cat Bol r) s 0 with
       | None => s
       | Some (_, z) =>
           f (JsString.take (endIndex z) s) (captures z)
             ++ JsString.drop (endIndex z) s
       end.
Proof.
  unfold replace. rewrite Nat.add_comm. cbn [Nat.add replaceLoop].
  destruct (exec (Cat Bol r) s 0) as [[pos z]|] eqn:E.
  - destruct (exec_anchored_index _ _ _ _ E) as [_ ->].
    assert (Hnext : 0 < (if endIndex z =? 0 then S (endIndex z) else endIndex z)).
    { destruct (endIndex z =? 0) eqn:Ez; [lia|].
      apply Nat.eqb_neq in Ez. lia. }
    unfold exec at 1. rewrite search_anchored by exact Hnext.
    cbn [JsString.drop JsString.take Nat.sub append].
    rewrite !Nat.sub_0_r. reflexivity.
  - reflexivity.
Qed.

End Anchored.

(** ** camelcase: the string helpers *)

Section CamelcaseStrings.
Import RegExp CamelcaseStrings.

(** [snakeToCamelCase] always returns. *)
Lemma snakeToCamelCase_total (name : string) :
  exists out, snakeToCamelCase name = Some out.
Proof.
  unfold snakeToCamelCase, SNAKE_LETTER. rewrite replace_anchored. eauto.
Qed.

(** [snakeToCamelCase] makes at most one replacement, at the start of
    the name: the matched text gives way to its first group and the
    upper-cased character of its second group. *)
Lemma snakeToCamelCase_one_replacement (name : string) :
  snakeToCamelCase name =
  Some match exec SNAKE_LETTER name 0 with
       | None => name
       | Some (_, z) =>
           (capture 1 (captures z) ++ JsString.toUpperCase (capture 2 (captures z)))
             ++ JsString.drop (endIndex z) name
       end.
Proof.
  unfold snakeToCamelCase, SNAKE_LETTER. rewrite replace_anchored.
  destruct (exec _ name 0) as [[pos z]|]; reflexivity.
Qed.

(** After a successful test, the next call of [isSnakeCase] answers
    [false] for every name. *)
Lemma isSnakeCase_stale (name : string) (i : nat) :
  0 < i -> isSnakeCase name i = (false, 0).
Proof.
  intros Hi. unfold isSnakeCase, NON_SURROUNDING_UNDERSCORE.
  now rewrite test_anchored_stale.
Qed.

End CamelcaseStrings.

(** ** camelcase: what the fix and the test do on the names of the
       specification *)

Section CamelcaseExamples.
Import Ast Samples Camelcase.

(** C1.  [snakeToCamelCase] converts the first separator only: the
    pattern is anchored at the start of the name, so the [g] flag finds no
    second match.  ["foo_bar"] becomes ["fooBar"], but ["_foo_bar_baz_"]
    becomes ["_fooBar_baz_"] and not ["_fooBarBaz_"], and ["__x__y__"]
    becomes ["__x_y__"] and not ["__xY__"]. *)
Theorem snakeToCamelCase_converts_first_separator_only :
  snakeToCamelCase "foo_bar" = Some "fooBar"
  /\ snakeToCamelCase "_foo_bar_baz_" = Some "_fooBar_baz_"
  /\ snakeToCamelCase "_foo_bar_baz_" <> Some "_fooBarBaz_"
  /\ snakeToCamelCase "__x__y__" = Some "__x_y__".
Proof.
  repeat split; try reflexivity.
  vm_compute. discriminate.
Qed.

(** C2.  The output of the fix can be flagged again: the fix of
    ["_foo_bar_baz_"] is ["_fooBar_baz_"], which a fresh rule instance
    finds snake-cased; and the fix leaves ["x_y_"] as it is, although the
    test accepts it. *)
Theorem fixed_name_is_flagged_again :
  snakeToCamelCase "_foo_bar_baz_" = Some "_fooBar_baz_"
  /\ fst (isSnakeCase "_fooBar_baz_" 0) = true
  /\ snakeToCamelCase "x_y_" = Some "x_y_"
  /\ fst (isSnakeCase "x_y_" 0) = true
  /\ option_map (fun st => map rep_node (sink st))
       (lint None (program (0, 13) [exprStmt 1 (0, 13) (ident 2 (0, 12) "_fooBar_baz_")]))
     = Some [2].
Proof.
  repeat split; reflexivity.
Qed.

(** C3.  The answer of [isSnakeCase] depends on the [lastIndex] that the
    previous call left in the pattern: in a fresh rule instance ["x_y"] is
    snake-cased, and the very next call answers [false] for ["_x_y"] (and
    for every other name of the list of the comment); so the rule flags
    [a_b] and misses [c_d] in the program [a_b; c_d;]. *)
Theorem isSnakeCase_depends_on_lastIndex :
  isSnakeCase "x_y" 0 = (true, 2)
  /\ isSnakeCase "_x_y" 2 = (false, 0)
  /\ isSnakeCase "x_y" 2 = (false, 0)
  /\ option_map (fun st => map rep_node (sink st)) (lint None prog_two) = Some [2]
  /\ option_map (fun st => map rep_node (sink st)) (CamelcaseEarlier.lint None prog_two)
     = Some [2].
Proof.
  repeat split; reflexivity.
Qed.

(** In a fresh rule instance the table of the comment holds. *)
Lemma isSnakeCase_fresh_table :
  map (fun s => fst (isSnakeCase s 0)) ["_x"; "_x_"; "x_"; "__x"; "x__"; "__x__"]
  = [false; false; false; false; false; false]
  /\ map (fun s => fst (isSnakeCase s 0))
       ["x_y"; "_x_y"; "_x_y_"; "__x__y__"; "x_y_"; "x_y__"; "x__y__"]
     = [true; true; true; true; true; true; true].
Proof.
  split; reflexivity.
Qed.

(** C7.  The property node of [a_b.a_b] is reported: the branch for
    object names compares the name of the object with the name of the
    node, not the object with the node.  In [c_d; a_b.a_b;] the property
    (node 6) is visited with [lastIndex] at 0 and reported; the parent of
    the node is the member expression, the enclosing expression an
    expression statement. *)
Theorem property_named_like_object_is_reported :
  let object := ident 5 (5, 8) "a_b" in
  let property := ident 6 (9, 12) "a_b" in
  let parent := member 4 (5, 12) object property in
  let statement := exprStmt 3 (5, 13) parent in
  (field "property" parent = Some property
   /\ has_type "AssignmentExpression" statement = false
   /\ has_type "CallExpression" parent = false)
  /\ option_map (fun st => map rep_node (sink st))
       (Identifier "always" [parent; statement; prog_member] property init)
     = Some [6]
  /\ option_map (fun st => map rep_node (sink st))
       (CamelcaseEarlier.Identifier "always" [parent; statement; prog_member]
          property init)
     = Some [6]
  /\ option_map (fun st => map rep_node (sink st)) (lint None prog_member)
     = Some [2; 6]
  /\ option_map (fun st => map rep_node (sink st))
       (CamelcaseEarlier.lint None prog_member)
     = Some [2; 6].
Proof.
  repeat split; reflexivity.
Qed.

End CamelcaseExamples.

(** ** camelcase: one report per node *)

Section ReportedOnce.
Import Ast Fault Samples Camelcase CamelcaseNotions.

Lemma is_reported_In (n : nat) (st : State) :
  is_reported n st = true <-> In n (reported st).
Proof.
  unfold is_reported. rewrite existsb_exists. split.
  - intros [x [Hin Heq]]. apply Nat.eqb_eq in Heq. now subst.
  - intros Hin. exists n. split; [assumption | apply Nat.eqb_refl].
Qed.

Lemma once_push (n : nat) (obj : Report) (st : State) :
  rep_node obj = n -> is_reported n st = false -> once st ->
  once (mkState (lastIndex st) (reported st ++ [n])%list (sink st ++ [obj])%list).
Proof.
  intros Hn Hnot [Hmap Hnd]. split; simpl.
  - rewrite map_app, Hmap. simpl. now rewrite Hn.
  - apply NoDup_app; [assumption | repeat constructor; intros [] | ].
    intros x Hx [Heq|[]]. subst x.
    apply is_reported_In in Hx. congruence.
Qed.

Lemma report_once (obj : Report) (st : State) :
  once st -> once (report obj st).
Proof.
  intros H. unfold report.
  destruct (is_reported (rep_node obj) st) eqn:E; [assumption|].
  now apply once_push.
Qed.

Lemma report_earlier_once (node : Node) (st : State) :
  once st -> once (CamelcaseEarlier.report node st).
Proof.
  intros H. unfold CamelcaseEarlier.report.
  destruct (is_reported (nid node) st) eqn:E; simpl; [assumption|].
  now apply once_push.
Qed.

Lemma once_lastIndex (i : nat) (st : State) :
  once st -> once (mkState i (reported st) (sink st)).
Proof. intros H. exact H. Qed.

Lemma Identifier_once (properties : string) (anc : list Node) (node : Node)
      (st st' : State) :
  once st -> Identifier properties anc node st = Some st' -> once st'.
Proof.
  intros H. unfold Identifier.
  destruct (isSnakeCase (name_string node) (lastIndex st)) as [snake i].
  pose proof (once_lastIndex i st H) as H1.
  destruct snake; simpl; [|intros E; inversion E; now subst].
  destruct (hd_error anc) as [parent|]; simpl; [|discriminate].
  match goal with
  | |- bind ?e _ = _ -> _ => destruct e as [[|]|]; simpl
  end; intros E; inversion E; subst; auto using report_once.
Qed.

Lemma Identifier_earlier_once (properties : string) (anc : list Node)
      (node : Node) (st st' : State) :
  once st -> CamelcaseEarlier.Identifier properties anc node st = Some st' -> once st'.
Proof.
  intros H. unfold CamelcaseEarlier.Identifier.
  destruct (hd_error anc) as [parent|]; simpl; [|discriminate].
  destruct (has_type "CallExpression" parent); [intros E; inversion E; now subst|].
  destruct (isSnakeCase (name_string node) (lastIndex st)) as [snake i].
  pose proof (once_lastIndex i st H) as H1.
  destruct snake; simpl; [|intros E; inversion E; now subst].
  match goal with
  | |- bind ?e _ = _ -> _ => destruct e as [[|]|]; simpl
  end; intros E; inversion E; subst; auto using report_earlier_once.
Qed.

(** An invariant of the callback is an invariant of the traversal. *)
Lemma dispatch_invariant {S : Type} (P : S -> Prop)
      (cb : list Node -> Node -> S -> option S) (t : string) :
  (forall anc n st st', P st -> cb anc n st = Some st' -> P st') ->
  forall vs st st', P st -> dispatch cb t vs st = Some st' -> P st'.
Proof.
  intros Hcb. induction vs as [|[anc n] vs IH]; intros st st' HP; simpl.
  - intros E. inversion E. now subst.
  - destruct (has_type t n).
    + destruct (cb anc n st) as [st1|] eqn:E1; [|discriminate].
      apply IH. eapply Hcb; eassumption.
    + now apply IH.
Qed.

Lemma once_init : once init.
Proof. split; [reflexivity | constructor]. Qed.

(** C8.  A second call of the report helper on a node of the [reported]
    array changes nothing, in both revisions of the rule; a traversal
    leaves no two reports on the same node; and the shorthand pattern
    [({ a_b } = obj)], where the key and the value are one node, gives one
    report for [a_b]. *)
Theorem camelcase_reports_a_node_once :
  (forall obj st, In (rep_node obj) (reported st) -> report obj st = st)
  /\ (forall node st,
        In (nid node) (reported st) -> CamelcaseEarlier.report node st = st)
  /\ (forall config root st,
        lint config root = Some st ->
        NoDup (map rep_node (sink st)) /\ map rep_node (sink st) = reported st)
  /\ (forall config root st,
        CamelcaseEarlier.lint config root = Some st ->
        NoDup (map rep_node (sink st)) /\ map rep_node (sink st) = reported st)
  /\ option_map (fun st => map rep_node (sink st)) (lint None prog_shorthand)
     = Some [5]
  /\ option_map (fun st => map rep_node (sink st))
       (CamelcaseEarlier.lint None prog_shorthand) = Some [5].
Proof.
  split; [|split; [|split; [|split; [|split]]]].
  - intros obj st Hin. unfold report.
    apply is_reported_In in Hin. now rewrite Hin.
  - intros node st Hin. unfold CamelcaseEarlier.report.
    apply is_reported_In in Hin. now rewrite Hin.
  - intros config root st E.
    assert (H : once st).
    { eapply dispatch_invariant with (P := once); [|apply once_init|exact E].
      intros anc n s s'. apply Identifier_once. }
    destruct H as [Hmap Hnd]. rewrite Hmap. auto.
  - intros config root st E.
    assert (H : once st).
    { eapply dispatch_invariant with (P := once); [|apply once_init|exact E].
      intros anc n s s'. apply Identifier_earlier_once. }
    destruct H as [Hmap Hnd]. rewrite Hmap. auto.
  - reflexivity.
  - reflexivity.
Qed.

(** The helper called twice with the same node, and the traversal of the
    shorthand pattern. *)
Lemma camelcase_reports_a_node_once_witness :
  In (rep_node a_b_report) (reported (report a_b_report init))
  /\ report a_b_report (report a_b_report init) = report a_b_report init
  /\ exists st, lint None prog_shorthand = Some st
                /\ NoDup (map rep_node (sink st)).
Proof.
  split; [left; reflexivity|]. split.
  - apply (proj1 camelcase_reports_a_node_once). left; reflexivity.
  - eexists. split; [reflexivity|].
    apply (proj1 (proj2 (proj2 camelcase_reports_a_node_once))
             None prog_shorthand _ eq_refl).
Defined.

(** X12.  What does hold in the property position: an identifier under a member
    expression whose object is not an identifier of the same name, with an
    enclosing expression that is not an assignment, is not reported. *)
Lemma other_property_not_reported (properties : string) (anc : list Node)
      (node parent enclosing object : Node) (st st' : State) :
  properties <> "never" ->
  hd_error anc = Some parent ->
  nth_error anc 1 = Some enclosing ->
  type parent = "MemberExpression" ->
  field "object" parent = Some object ->
  has_type "Identifier" object && name_is object (name node) = false ->
  type enclosing <> "AssignmentExpression" ->
  (Identifier properties anc node st = Some st' -> sink st' = sink st)
  /\ (CamelcaseEarlier.Identifier properties anc node st = Some st' ->
      sink st' = sink st).
Proof.
  intros Hp Hanc Hgp Hparent Hobj Hname Henc.
  apply String.eqb_neq in Hp. apply String.eqb_neq in Henc.
  assert (Hm : memberIsReference anc parent node = Some true).
  { unfold memberIsReference, has_type in *.
    rewrite Hobj. cbn [bind]. rewrite Hname, Hgp. cbn [bind].
    now rewrite Henc. }
  split.
  - unfold Identifier.
    destruct (isSnakeCase (name_string node) (lastIndex st)) as [[|] i];
      cbn [negb]; [|intros E; inversion E; reflexivity].
    rewrite Hanc. cbn [bind]. rewrite Hp. cbn [negb].
    unfold has_type. rewrite Hparent, String.eqb_refl, Hm. cbn [bind].
    intros E; inversion E; reflexivity.
  - unfold CamelcaseEarlier.Identifier. rewrite Hanc. cbn [bind].
    destruct (has_type "CallExpression" parent);
      [intros E; inversion E; reflexivity|].
    destruct (isSnakeCase (name_string node) (lastIndex st)) as [[|] i];
      cbn [negb]; [|intros E; inversion E; reflexivity].
    rewrite Hp. cbn [negb].
    unfold has_type. rewrite Hparent, String.eqb_refl, Hm. cbn [bind].
    intros E; inversion E; reflexivity.
Qed.

End ReportedOnce.

(** ** new-parens *)

Section NewParensProperties.
Import Ast Source Samples TokenSamples NewParens NewParensNotions.

(** C5, as stated, fails: the span of [new Foo[<a>(</a>]] holds a token
    with the value [(] (the JSX text) and none with the value [)], and the
    node is reported. *)
Lemma new_parens_neither_fails :
  ~ reports_iff_neither new_jsx_source new_jsx.
Proof.
  unfold reports_iff_neither. intros [H _].
  assert (E : NewExpression new_jsx_source new_jsx [] <> []) by (vm_compute; discriminate).
  apply H in E. destruct E as [E _]. vm_compute in E. discriminate.
Qed.

(** C5, amended.  A [NewExpression] is reported exactly when its token
    span does not hold both a [(] and a [)] token; the report is on the
    node and its fix inserts [()] at the end of the node.  [new Foo] is
    reported and fixed to [new Foo()]; [new Foo()] and [new Foo(1)] are not
    reported. *)
Theorem new_parens_reports_unless_both :
  (forall sc node sink,
      let tokens := getTokens sc node in
      NewExpression sc node sink =
      if existsb (isValue "(") tokens && existsb (isValue ")") tokens
      then sink
      else (sink ++ [mkReport (nid node) None message []
                       (FixWith (Some (mkFix (snd (range node), snd (range node))
                                         "()")))])%list)
  /\ (forall sc node sink,
         NewExpression sc node sink <> sink
         <-> ~ (existsb (isValue "(") (getTokens sc node) = true
                /\ existsb (isValue ")") (getTokens sc node) = true))
  /\ (exists r,
         NewExpression new_Foo_source new_Foo [] = [r]
         /\ exists f, rep_fix r = FixWith (Some f)
                      /\ applyFix f (text new_Foo_source) = "new Foo()")
  /\ NewExpression new_Foo_call_source new_Foo_call [] = []
  /\ NewExpression new_Foo_1_source new_Foo_1 [] = [].
Proof.
  split; [|split; [|split; [|split]]].
  - intros sc node sink tokens. unfold NewExpression. fold tokens.
    destruct (existsb (isValue "(") tokens && existsb (isValue ")") tokens);
      reflexivity.
  - intros sc node sink. unfold NewExpression.
    destruct (existsb (isValue "(") (getTokens sc node));
      destruct (existsb (isValue ")") (getTokens sc node)); simpl.
    + split; [congruence | intros H; exfalso; apply H; auto].
    + split; [intros _ [_ H]; discriminate|].
      intros _ E. apply (f_equal (@List.length Report)) in E.
      rewrite length_app in E. simpl in E. lia.
    + split; [intros _ [H _]; discriminate|].
      intros _ E. apply (f_equal (@List.length Report)) in E.
      rewrite length_app in E. simpl in E. lia.
    + split; [intros _ [H _]; discriminate|].
      intros _ E. apply (f_equal (@List.length Report)) in E.
      rewrite length_app in E. simpl in E. lia.
  - eexists. split; [reflexivity|]. eexists. split; reflexivity.
  - reflexivity.
  - reflexivity.
Qed.

End NewParensProperties.

(** ** valid-typeof *)

Section ValidTypeofProperties.
Import Ast Fault Samples TokenSamples ValidTypeof ValidTypeofNotions.

Lemma includes_In (array : list string) (v : option JsValue) :
  includes array v = true <-> exists s, v = Some (VString s) /\ In s array.
Proof.
  unfold includes. destruct v as [v|].
  - rewrite existsb_exists. split.
    + intros [s [Hin Heq]]. destruct v; simpl in Heq; try discriminate.
      apply String.eqb_eq in Heq. subst. eauto.
    + intros [s [Heq Hin]]. inversion Heq; subst. exists s. split; [assumption|].
      simpl. apply String.eqb_refl.
  - split; [discriminate | intros [s [H _]]; discriminate].
Qed.

Lemma known_includes (config : option Options) (v : option JsValue) :
  known (customTypes config) v
  <-> includes VALID_TYPES v || includes (customTypes config) v = true.
Proof.
  rewrite orb_true_iff, !includes_In. unfold known, VALID_TYPES. split.
  - intros [s [E [H|H]]]; [left|right]; eauto.
  - intros [[s [E H]]|[s [E H]]]; exists s; auto.
Qed.

(** C6.  For a [typeof] expression that is an operand of a comparison with
    [==], [===], [!=] or [!==] whose other operand is a literal, the rule
    adds one report, on the literal and without a fix, when the value of
    the literal is neither one of the seven type names nor on the
    allow-list, and adds nothing otherwise.  No report of the rule has a
    fix. *)
Theorem valid_typeof_reports_unknown_literal
        (config : option Options) (anc : list Node) (node parent sibling : Node)
        (sink : list Report) :
  operator node = Some "typeof" ->
  hd_error anc = Some parent ->
  type parent = "BinaryExpression" ->
  (exists op, operator parent = Some op /\ In op ["=="; "==="; "!="; "!=="]) ->
  opposite parent node = Some sibling ->
  type sibling = "Literal" ->
  (~ known (customTypes config) (value sibling) ->
   UnaryExpression config anc node sink
   = Some (sink ++ [mkReport (nid sibling) None message [] NoFix])%list)
  /\ (known (customTypes config) (value sibling) ->
      UnaryExpression config anc node sink = Some sink)
  /\ (forall sink',
         UnaryExpression config anc node sink = Some sink' ->
         exists added, sink' = (sink ++ added)%list
                       /\ Forall (fun r => rep_fix r = NoFix) added).
Proof.
  intros Hop Hanc Hparent [op [Hpop Hin]] Hsib Hlit.
  assert (E : UnaryExpression config anc node sink =
              Some (if includes VALID_TYPES (value sibling)
                       || includes (customTypes config) (value sibling)
                    then sink
                    else (sink ++ [mkReport (nid sibling) None message [] NoFix])%list)).
  { unfold UnaryExpression, operator_is, has_type, includes_operator.
    rewrite Hop, Hanc. cbn [Fault.bind]. rewrite Hparent, Hpop, !String.eqb_refl.
    assert (Ho : existsb (String.eqb op) OPERATORS = true).
    { apply existsb_exists. exists op. split; [exact Hin | apply String.eqb_refl]. }
    rewrite Ho. cbn [andb].
    unfold opposite in Hsib.
    destruct (field "left" parent) as [l|]; [|discriminate].
    destruct (field "right" parent) as [r|]; [|discriminate].
    destruct (same l node); inversion Hsib; subst; cbn [Fault.bind];
      rewrite Hlit, String.eqb_refl;
      destruct (includes VALID_TYPES (value sibling));
      destruct (includes (customTypes config) (value sibling)); reflexivity. }
  rewrite E. split; [|split].
  - intros Hk. rewrite known_includes in Hk.
    destruct (includes VALID_TYPES (value sibling)
              || includes (customTypes config) (value sibling));
      [exfalso; apply Hk; reflexivity | reflexivity].
  - intros Hk. apply known_includes in Hk. now rewrite Hk.
  - intros sink' E'. inversion E'.
    destruct (includes VALID_TYPES (value sibling)
              || includes (customTypes config) (value sibling)).
    + exists []. split; [now rewrite app_nil_r | constructor].
    + eexists. split; [reflexivity|]. repeat constructor.
Qed.

(** [typeof x === "strnig"] is reported, [typeof x === "string"] is not,
    [typeof x === "bigint"] is, unless ["bigint"] is on the allow-list. *)
Lemma valid_typeof_reports_unknown_literal_witness :
  (exists r, UnaryExpression None [compare "===" "strnig"] typeof_x [] = Some [r]
             /\ rep_node r = 4 /\ rep_fix r = NoFix)
  /\ UnaryExpression None [compare "===" "string"] typeof_x [] = Some []
  /\ (exists r, UnaryExpression None [compare "===" "bigint"] typeof_x [] = Some [r])
  /\ UnaryExpression allow_bigint [compare "===" "bigint"] typeof_x [] = Some [].
Proof.
  assert (Hops : exists op, Some "===" = Some op /\ In op ["=="; "==="; "!="; "!=="])
    by (exists "==="; simpl; auto).
  assert (Hnot : forall allow lit,
             ~ In lit ["symbol"; "undefined"; "object"; "boolean"; "number";
                       "string"; "function"] ->
             ~ In lit allow -> ~ known allow (Some (VString lit))).
  { intros allow lit H1 H2 [s [E [H|H]]]; inversion E; subst; auto. }
  simpl. split; [|split; [|split]].
  - eexists. split.
    + apply (proj1 (valid_typeof_reports_unknown_literal None
                      [compare "===" "strnig"] typeof_x (compare "===" "strnig")
                      (mkNode 4 "Literal" (13, 21) None None (Some (VString "strnig")) [])
                      [] eq_refl eq_refl eq_refl Hops eq_refl eq_refl)).
      apply Hnot; simpl; intuition discriminate.
    + split; reflexivity.
  - apply (proj1 (proj2 (valid_typeof_reports_unknown_literal None
                    [compare "===" "string"] typeof_x (compare "===" "string")
                    (mkNode 4 "Literal" (13, 21) None None (Some (VString "string")) [])
                    [] eq_refl eq_refl eq_refl Hops eq_refl eq_refl))).
    exists "string". simpl. intuition.
  - eexists.
    apply (proj1 (valid_typeof_reports_unknown_literal None
                    [compare "===" "bigint"] typeof_x (compare "===" "bigint")
                    (mkNode 4 "Literal" (13, 21) None None (Some (VString "bigint")) [])
                    [] eq_refl eq_refl eq_refl Hops eq_refl eq_refl)).
    apply Hnot; simpl; intuition discriminate.
  - apply (proj1 (proj2 (valid_typeof_reports_unknown_literal allow_bigint
                    [compare "===" "bigint"] typeof_x (compare "===" "bigint")
                    (mkNode 4 "Literal" (13, 21) None None (Some (VString "bigint")) [])
                    [] eq_refl eq_refl eq_refl Hops eq_refl eq_refl))).
    exists "bigint". simpl. intuition.
Defined.

End ValidTypeofProperties.

(** ** padded-blocks *)

Section PaddedBlocksProperties.
Import Ast Source Fault Samples TokenSamples PaddedBlocks PaddedBlocksNotions.

(** C4.  Under ["never"], the message of the bottom report carries the
    count of the top side: for the block with one blank line at the top
    and two at the bottom, both revisions report the bottom side with the
    bare message, without [(2 blank lines found)]. *)
Theorem never_bottom_message_ignores_bottom_count :
  getOpenBrace block_source block_node = Some open_brace
  /\ getLastToken block_source block_node = Some close_brace
  /\ PaddedBlocks.getTokenPadding block_source open_brace 1 = Some 1%Z
  /\ PaddedBlocks.getTokenPadding block_source close_brace (-1) = Some 2%Z
  /\ PaddedBlocksFix.getTokenPadding block_source open_brace 1 = Some 1%Z
  /\ PaddedBlocksFix.getTokenPadding block_source close_brace (-1) = Some 2%Z
  /\ option_map (map (fun r => (rep_loc r, rep_message r)))
       (call (BlockStatement (PaddedBlocks.create block_source never)) block_node [])
     = Some [ (Some (2, 0)%Z, "Block must not be padded by blank lines.");
              (Some (5, 0)%Z, "Block must not be padded by blank lines.") ]
  /\ option_map (map (fun r => (rep_loc r, rep_message r)))
       (call (BlockStatement (PaddedBlocksFix.create block_source never)) block_node [])
     = Some [ (Some (2, 0)%Z, "Block must not be padded by blank lines.");
              (Some (4, 0)%Z, "Block must not be padded by blank lines.") ].
Proof.
  repeat split; reflexivity.
Qed.


(** C9.  A callback of the rule, in either revision and under every
    configuration that registers it, returns on a node with an empty list
    without a report and without a fault: a [SwitchStatement] without
    cases, a [BlockStatement] or a [ClassBody] without body.  For the
    switch this holds although [getOpenBrace] itself faults on [cases[0]]
    there: the callback returns before the call. *)
Theorem empty_nodes_are_not_checked
        (sc : SourceCode) (config : option Config) (node : Node)
        (sink : list Report) :
  (elements "cases" node = [] ->
   call (SwitchStatement (PaddedBlocks.create sc config)) node sink = Some sink
   /\ call (SwitchStatement (PaddedBlocksFix.create sc config)) node sink = Some sink)
  /\ (elements "body" node = [] ->
      call (BlockStatement (PaddedBlocks.create sc config)) node sink = Some sink
      /\ call (BlockStatement (PaddedBlocksFix.create sc config)) node sink = Some sink
      /\ call (ClassBody (PaddedBlocks.create sc config)) node sink = Some sink
      /\ call (ClassBody (PaddedBlocksFix.create sc config)) node sink = Some sink)
  /\ (type node = "SwitchStatement" -> elements "cases" node = [] ->
      getOpenBrace sc node = None).
Proof.
  split; [|split].
  - intros E. unfold PaddedBlocks.create, PaddedBlocksFix.create, call. simpl.
    destruct (switches (options_of config)); simpl; rewrite ?E; auto.
  - intros E. unfold PaddedBlocks.create, PaddedBlocksFix.create, call. simpl.
    destruct (blocks (options_of config)); destruct (classes (options_of config));
      simpl; rewrite ?E; auto.
  - intros Ht E. unfold getOpenBrace, has_type. rewrite Ht, E. reflexivity.
Qed.

Lemma empty_nodes_are_not_checked_witness :
  (call (SwitchStatement (PaddedBlocks.create empty_source all_never)) empty_switch []
   = Some []
   /\ call (SwitchStatement (PaddedBlocksFix.create empty_source all_never))
        empty_switch [] = Some [])
  /\ (call (BlockStatement (PaddedBlocks.create empty_source all_never)) empty_switch []
      = Some []
      /\ call (BlockStatement (PaddedBlocksFix.create empty_source all_never))
           empty_switch [] = Some []
      /\ call (ClassBody (PaddedBlocks.create empty_source all_never)) empty_switch []
         = Some []
      /\ call (ClassBody (PaddedBlocksFix.create empty_source all_never))
           empty_switch [] = Some [])
  /\ getOpenBrace empty_source empty_switch = None.
Proof.
  pose proof (empty_nodes_are_not_checked empty_source all_never empty_switch [])
    as [H1 [H2 H3]].
  split; [|split].
  - apply H1. reflexivity.
  - apply H2. reflexivity.
  - apply H3; reflexivity.
Defined.

End PaddedBlocksProperties.

Section PaddedBlocksDefault.
Import Ast Source Fault Samples TokenSamples PaddedBlocks PaddedBlocksNotions.

(** C10.  Without an option the rule is the rule of the string ["always"]:
    [options] has the one key [blocks], set to [true]; only the
    [BlockStatement] callback is registered; and on a block with a body the
    callback reports each side that has no blank line, with the message of
    ["always"], and nothing else.  Both revisions. *)
Theorem no_option_is_always_for_blocks (sc : SourceCode) :
  PaddedBlocks.create sc None = PaddedBlocks.create sc (Some (CString "always"))
  /\ PaddedBlocksFix.create sc None = PaddedBlocksFix.create sc (Some (CString "always"))
  /\ options_of None = mkOptions (Some true) None None
  /\ SwitchStatement (PaddedBlocks.create sc None) = None
  /\ ClassBody (PaddedBlocks.create sc None) = None
  /\ SwitchStatement (PaddedBlocksFix.create sc None) = None
  /\ ClassBody (PaddedBlocksFix.create sc None) = None
  /\ (exists cb, BlockStatement (PaddedBlocks.create sc None) = Some cb)
  /\ (exists cb, BlockStatement (PaddedBlocksFix.create sc None) = Some cb)
  /\ (forall node sink openBrace closeBrace,
         type node = "BlockStatement" ->
         elements "body" node <> [] ->
         getOpenBrace sc node = Some openBrace ->
         getLastToken sc node = Some closeBrace ->
         (forall top bottom,
             PaddedBlocks.getTokenPadding sc openBrace 1 = Some top ->
             PaddedBlocks.getTokenPadding sc closeBrace (-1) = Some bottom ->
             pads_both_sides
               (call (BlockStatement (PaddedBlocks.create sc None)) node sink)
               sink top bottom)
         /\ (forall top bottom,
                PaddedBlocksFix.getTokenPadding sc openBrace 1 = Some top ->
                PaddedBlocksFix.getTokenPadding sc closeBrace (-1) = Some bottom ->
                pads_both_sides
                  (call (BlockStatement (PaddedBlocksFix.create sc None)) node sink)
                  sink top bottom)).
Proof.
  repeat (split; [reflexivity|]).
  split; [eexists; reflexivity|]. split; [eexists; reflexivity|].
  intros node sink openBrace closeBrace Ht Hbody Ho Hc.
  assert (Hlen : (List.length (elements "body" node) =? 0) = false).
  { destruct (elements "body" node); [congruence | reflexivity]. }
  split; intros top bottom Htop Hbottom; unfold pads_both_sides;
    cbn [call BlockStatement PaddedBlocks.create PaddedBlocksFix.create
         options_of blocks hasOwnProperty];
    rewrite Hlen;
    unfold PaddedBlocks.checkPadding, PaddedBlocksFix.checkPadding;
    rewrite Ho, Hc; cbn [bind]; rewrite Htop, Hbottom; cbn [bind];
    unfold requirePaddingFor, has_type; rewrite Ht; cbn [bind];
    change (truthy (blocks (mkOptions (Some (is_always "always")) None None)))
      with true; cbv iota; unfold report_at;
    destruct (top =? 0)%Z; destruct (bottom =? 0)%Z.
  all: try (eexists; split; [rewrite <- app_assoc; reflexivity|];
            split; repeat constructor).
  all: try (eexists; split; [reflexivity|]; split; repeat constructor).
  all: exists []; rewrite app_nil_r; repeat constructor.
Qed.

(** The block without blank lines is reported twice when the rule has no
    option, in both revisions. *)
Lemma no_option_is_always_for_blocks_witness :
  pads_both_sides
    (call (BlockStatement (PaddedBlocks.create tight_source None)) tight_block [])
    [] 0 0
  /\ pads_both_sides
       (call (BlockStatement (PaddedBlocksFix.create tight_source None)) tight_block [])
       [] 0 0.
Proof.
  pose proof (no_option_is_always_for_blocks tight_source)
    as [_ [_ [_ [_ [_ [_ [_ [_ [_ H]]]]]]]]].
  destruct (H tight_block [] (tok "Punctuator" "{" (0, 1) 1 0)
              (tok "Punctuator" "}" (7, 8) 3 0) eq_refl
              ltac:(discriminate) eq_refl eq_refl) as [H1 H2].
  split; [apply H1 | apply H2]; reflexivity.
Defined.

End PaddedBlocksDefault.

(** ** camelcase: the test in a fresh rule instance *)

Section FreshTest.
Import RegExp CamelcaseStrings SnakeShape.

Lemma append_nil_inv (u v : string) : "" = u ++ v -> u = "" /\ v = "".
Proof. destruct u; simpl; [auto | discriminate]. Qed.

(** A greedy repetition succeeds exactly when the continuation succeeds
    after some run of the class. *)
Lemma star_accepts (p : ascii -> bool) (k : Cont) (caps : list (nat * string))
      (s : string) (i : nat) :
  star p k i s caps <> None
  <-> exists u v, s = u ++ v /\ all_in p u = true
                  /\ k (mkMState (i + String.length u) v caps) <> None.
Proof.
  revert i. induction s as [|c s IH]; intros i; simpl.
  - split.
    + intros H. exists "", "". simpl. rewrite Nat.add_0_r. auto.
    + intros [u [v [E [_ H]]]]. apply append_nil_inv in E as [-> ->].
      simpl in H. now rewrite Nat.add_0_r in H.
  - destruct (p c) eqn:Hc.
    + destruct (star p k (S i) s caps) eqn:E.
      * split; [intros _ | discriminate].
        assert (H : star p k (S i) s caps <> None) by (rewrite E; discriminate).
        apply IH in H as [u [v [Es [Hu Hk]]]].
        exists (String c u), v. simpl. rewrite Hc, Hu, Es.
        rewrite Nat.add_succ_r. auto.
      * split.
        -- intros H. exists "", (String c s). simpl. rewrite Nat.add_0_r. auto.
        -- intros [u [v [Es [Hu Hk]]]]. destruct u as [|c' u]; simpl in *.
           ++ subst v. now rewrite Nat.add_0_r in Hk.
           ++ exfalso. inversion Es; subst c' s.
              apply andb_true_iff in Hu as [_ Hu].
              assert (H : star p k (S i) (u ++ v) caps <> None).
              { apply IH. exists u, v. rewrite Nat.add_succ_r in Hk. auto. }
              congruence.
    + split.
      * intros H. exists "", (String c s). simpl. rewrite Nat.add_0_r. auto.
      * intros [u [v [Es [Hu Hk]]]]. destruct u as [|c' u]; simpl in *.
        -- subst v. now rewrite Nat.add_0_r in Hk.
        -- inversion Es; subst c' s. rewrite Hc in Hu. discriminate.
Qed.

Lemma plus_accepts (p : ascii -> bool) (k : Cont) (x : MState) :
  run (Plus p) k x <> None
  <-> exists u v, rest x = u ++ v /\ u <> "" /\ all_in p u = true
                  /\ k (mkMState (endIndex x + String.length u) v (captures x)) <> None.
Proof.
  simpl. destruct (rest x) as [|c s].
  - split; [congruence|]. intros [u [v [E [Hne _]]]].
    apply append_nil_inv in E as [-> _]. congruence.
  - destruct (p c) eqn:Hc.
    + rewrite star_accepts. split.
      * intros [u [v [E [Hu Hk]]]]. exists (String c u), v. simpl.
        rewrite Hc, Hu, E, Nat.add_succ_r. repeat split; auto. discriminate.
      * intros [u [v [E [Hne [Hu Hk]]]]]. destruct u as [|c' u]; [congruence|].
        simpl in *. inversion E; subst c' s.
        apply andb_true_iff in Hu as [_ Hu].
        exists u, v. rewrite Nat.add_succ_r in Hk. auto.
    + split; [congruence|]. intros [u [v [E [Hne [Hu _]]]]].
      destruct u as [|c' u]; [congruence|]. simpl in *.
      inversion E; subst c' s. rewrite Hc in Hu. discriminate.
Qed.

(** [(?!_*$)]: what is left is not a run of underscores. *)
Lemma not_ahead_accepts (x : MState) :
  run (NotAhead (Cat (Star underscore) Eol)) Some x <> None
  <-> all_in underscore (rest x) = false.
Proof.
  change (run (NotAhead (Cat (Star underscore) Eol)) Some x)
    with (match star underscore (run Eol Some) (endIndex x) (rest x) (captures x) with
          | Some _ => None
          | None => Some x
          end).
  destruct (star underscore (run Eol Some) (endIndex x) (rest x) (captures x)) eqn:E.
  - split; [congruence|]. intros Hf. exfalso.
    assert (H : star underscore (run Eol Some) (endIndex x) (rest x) (captures x)
                <> None) by (rewrite E; discriminate).
    apply star_accepts in H as [u [v [Er [Hu Hk]]]]. simpl in Hk.
    destruct v; [|congruence]. rewrite Er in Hf.
    assert (Hnil : u ++ "" = u) by (clear; induction u; simpl; congruence).
    rewrite Hnil in Hf. congruence.
  - split; [|discriminate]. intros _.
    destruct (all_in underscore (rest x)) eqn:Ha; [|reflexivity]. exfalso.
    assert (H : star underscore (run Eol Some) (endIndex x) (rest x) (captures x)
                <> None).
    { apply star_accepts. exists (rest x), "". simpl.
      repeat split; auto; [|discriminate].
      clear. induction (rest x); simpl; congruence. }
    congruence.
Qed.

(** The pattern of the test matches at index 0 exactly the names of the
    shape the specification describes. *)
Lemma NON_SURROUNDING_UNDERSCORE_separated (s : string) :
  matchAt NON_SURROUNDING_UNDERSCORE 0 s <> None <-> separated s.
Proof.
  unfold matchAt, NON_SURROUNDING_UNDERSCORE, separated.
  cbn [run JsString.drop endIndex rest captures Nat.eqb].
  rewrite star_accepts. split.
  - intros [lead [v1 [E1 [Hlead H]]]].
    change (run (Plus not_underscore)
              (run (Cat (Group 1 (Plus underscore))
                      (NotAhead (Cat (Star underscore) Eol))) Some)
              (mkMState (0 + String.length lead) v1 []) <> None) in H.
    apply plus_accepts in H as [word [v2 [E2 [Hne2 [Hword H]]]]].
    cbn [run endIndex rest captures] in H.
    change (run (Plus underscore)
              (fun y => run (NotAhead (Cat (Star underscore) Eol)) Some
                          (mkMState (endIndex y) (rest y)
                             ((1, JsString.take
                                    (endIndex y - (0 + String.length lead
                                                   + String.length word)) v2)
                                :: captures y)))
              (mkMState (0 + String.length lead + String.length word) v2 [])
            <> None) in H.
    apply plus_accepts in H as [sep [tail [E3 [Hne3 [Hsep H]]]]].
    apply not_ahead_accepts in H. cbn [rest] in *.
    exists lead, word, sep, tail. subst. repeat split; auto.
  - intros [lead [word [sep [tail [E [Hlead [Hne2 [Hword [Hne3 [Hsep Htail]]]]]]]]]].
    exists lead, (word ++ sep ++ tail). repeat split; auto.
    change (run (Plus not_underscore)
              (run (Cat (Group 1 (Plus underscore))
                      (NotAhead (Cat (Star underscore) Eol))) Some)
              (mkMState (0 + String.length lead) (word ++ sep ++ tail) []) <> None).
    apply plus_accepts. exists word, (sep ++ tail). cbn [rest endIndex captures].
    repeat split; auto.
    cbn [run endIndex rest captures].
    change (run (Plus underscore)
              (fun y => run (NotAhead (Cat (Star underscore) Eol)) Some
                          (mkMState (endIndex y) (rest y)
                             ((1, JsString.take
                                    (endIndex y - (0 + String.length lead
                                                   + String.length word))
                                    (sep ++ tail))
                                :: captures y)))
              (mkMState (0 + String.length lead + String.length word)
                 (sep ++ tail) [])
            <> None).
    apply plus_accepts. exists sep, tail. cbn [rest endIndex captures].
    repeat split; auto.
    apply not_ahead_accepts. exact Htail.
Qed.

(** X1.  In a fresh rule instance ([lastIndex] at 0) a name is snake-cased
    exactly when it has the shape of the specification and is not its own
    upper-case form. *)
Lemma isSnakeCase_fresh (s : string) :
  fst (isSnakeCase s 0) = true
  <-> separated s /\ s <> JsString.toUpperCase s.
Proof.
  rewrite <- NON_SURROUNDING_UNDERSCORE_separated.
  unfold isSnakeCase, test, exec, isUpperCase.
  rewrite Nat.sub_0_r. cbn [search].
  destruct (matchAt NON_SURROUNDING_UNDERSCORE 0 s) as [z|] eqn:E.
  - simpl. rewrite negb_true_iff, String.eqb_neq. split.
    + intros H. split; [discriminate | exact H].
    + intros [_ H]. exact H.
  - unfold NON_SURROUNDING_UNDERSCORE. rewrite search_anchored by lia. simpl.
    split; [discriminate | intros [H _]; congruence].
Qed.

End FreshTest.


(* ================================================================== *)
(** * Further properties of the rules *)

(** ** Strings *)

Section StringFacts.
Import JsString.

Lemma append_assoc (a b c : string) : (a ++ b) ++ c = a ++ b ++ c.
Proof. induction a as [|x a IH]; simpl; congruence. Qed.

Lemma append_empty_r (a : string) : a ++ "" = a.
Proof. induction a as [|x a IH]; simpl; congruence. Qed.

Lemma length_append (a b : string) :
  String.length (a ++ b) = String.length a + String.length b.
Proof. induction a as [|x a IH]; simpl; congruence. Qed.

Lemma take_append (a b : string) : take (String.length a) (a ++ b) = a.
Proof. induction a as [|x a IH]; simpl; [destruct b; reflexivity | congruence]. Qed.

Lemma drop_append (a b : string) (n : nat) :
  drop (String.length a + n) (a ++ b) = drop n b.
Proof. induction a as [|x a IH]; simpl; auto. Qed.

Lemma drop_0 (s : string) : drop 0 s = s.
Proof. destruct s; reflexivity. Qed.

Lemma length_toUpperCase (s : string) :
  String.length (toUpperCase s) = String.length s.
Proof. induction s as [|c s IH]; simpl; congruence. Qed.

End StringFacts.

(** ** The matcher, pattern by pattern *)

Section MatcherRules.
Import RegExp SnakeShape.

Variables (k : Cont) (x z : MState).

Lemma cat_elim (a b : Pattern) :
  run (Cat a b) k x = Some z -> run a (run b k) x = Some z.
Proof. exact (fun H => H). Qed.

Lemma cat_intro (a b : Pattern) :
  run a (run b k) x = Some z -> run (Cat a b) k x = Some z.
Proof. exact (fun H => H). Qed.

Lemma bol_elim : run Bol k x = Some z -> endIndex x = 0 /\ k x = Some z.
Proof.
  simpl. destruct (endIndex x =? 0) eqn:E; [|discriminate].
  apply Nat.eqb_eq in E. auto.
Qed.

Lemma bol_intro : endIndex x = 0 -> k x = Some z -> run Bol k x = Some z.
Proof. intros E H. simpl. now rewrite E. Qed.

Lemma eol_elim : run Eol k x = Some z -> rest x = "" /\ k x = Some z.
Proof. simpl. destruct (rest x); [auto | discriminate]. Qed.

Lemma group_elim (i : nat) (r : Pattern) :
  run (Group i r) k x = Some z ->
  run r (fun y => k (mkMState (endIndex y) (rest y)
                       ((i, JsString.take (endIndex y - endIndex x) (rest x))
                          :: captures y))) x = Some z.
Proof. exact (fun H => H). Qed.

Lemma group_intro (i : nat) (r : Pattern) :
  run r (fun y => k (mkMState (endIndex y) (rest y)
                       ((i, JsString.take (endIndex y - endIndex x) (rest x))
                          :: captures y))) x = Some z ->
  run (Group i r) k x = Some z.
Proof. exact (fun H => H). Qed.

Lemma class_elim (p : ascii -> bool) :
  run (Class p) k x = Some z ->
  exists c v, rest x = String c v /\ p c = true
              /\ k (mkMState (S (endIndex x)) v (captures x)) = Some z.
Proof.
  simpl. destruct (rest x) as [|c v]; [discriminate|].
  destruct (p c) eqn:E; [|discriminate]. eauto.
Qed.

Lemma class_intro (p : ascii -> bool) (c : ascii) (v : string) :
  rest x = String c v -> p c = true ->
  k (mkMState (S (endIndex x)) v (captures x)) = Some z ->
  run (Class p) k x = Some z.
Proof. intros E Hp H. simpl. now rewrite E, Hp. Qed.

Lemma alt_elim (a b : Pattern) :
  run (Alt a b) k x = Some z -> run a k x = Some z \/ run b k x = Some z.
Proof. simpl. destruct (run a k x); auto. Qed.

End MatcherRules.

Section MatcherRepetition.
Import RegExp SnakeShape.

(** The result of a greedy repetition is the result of the continuation
    after some run of the class. *)
Lemma star_elim (p : ascii -> bool) (k : Cont) (caps : list (nat * string))
      (z : MState) (s : string) (i : nat) :
  star p k i s caps = Some z ->
  exists u v, s = u ++ v /\ all_in p u = true
              /\ k (mkMState (i + String.length u) v caps) = Some z.
Proof.
  revert i. induction s as [|c s IH]; intros i; simpl.
  - intros H. exists "", "". simpl. rewrite Nat.add_0_r. auto.
  - destruct (p c) eqn:Hc.
    + destruct (star p k (S i) s caps) as [z'|] eqn:E.
      * intros H. inversion H; subst z'.
        apply IH in E as [u [v [Es [Hu Hk]]]].
        exists (String c u), v. simpl. rewrite Hc, Hu, Es, Nat.add_succ_r. auto.
      * intros H. exists "", (String c s). simpl. rewrite Nat.add_0_r. auto.
    + intros H. exists "", (String c s). simpl. rewrite Nat.add_0_r. auto.
Qed.

(** When the continuation succeeds after the longest run, that is the
    result. *)
Lemma star_intro (p : ascii -> bool) (k : Cont) (caps : list (nat * string))
      (z : MState) (u v : string) (i : nat) :
  all_in p u = true ->
  (forall c v', v = String c v' -> p c = false) ->
  k (mkMState (i + String.length u) v caps) = Some z ->
  star p k i (u ++ v) caps = Some z.
Proof.
  intros Hu Hv. revert i. induction u as [|c u IH]; intros i Hk; simpl in *.
  - rewrite Nat.add_0_r in Hk. destruct v as [|c v']; [exact Hk|].
    simpl. now rewrite (Hv c v' eq_refl).
  - apply andb_true_iff in Hu as [Hc Hu]. rewrite Hc.
    rewrite Nat.add_succ_r in Hk. now rewrite (IH Hu (S i) Hk).
Qed.

Lemma plus_elim (p : ascii -> bool) (k : Cont) (x z : MState) :
  run (Plus p) k x = Some z ->
  exists u v, rest x = u ++ v /\ u <> "" /\ all_in p u = true
              /\ k (mkMState (endIndex x + String.length u) v (captures x)) = Some z.
Proof.
  simpl. destruct (rest x) as [|c s]; [discriminate|].
  destruct (p c) eqn:Hc; [|discriminate].
  intros H. apply star_elim in H as [u [v [E [Hu Hk]]]].
  exists (String c u), v. simpl. rewrite Hc, Hu, E, Nat.add_succ_r.
  repeat split; auto. discriminate.
Qed.

Lemma plus_intro (p : ascii -> bool) (k : Cont) (x z : MState) (u v : string) :
  rest x = u ++ v -> u <> "" -> all_in p u = true ->
  (forall c v', v = String c v' -> p c = false) ->
  k (mkMState (endIndex x + String.length u) v (captures x)) = Some z ->
  run (Plus p) k x = Some z.
Proof.
  intros E Hne Hu Hv Hk. simpl. rewrite E.
  destruct u as [|c u]; [congruence|]. simpl in *.
  apply andb_true_iff in Hu as [Hc Hu]. rewrite Hc.
  apply star_intro; auto. now rewrite Nat.add_succ_r in Hk.
Qed.

Lemma star_elim_run (p : ascii -> bool) (k : Cont) (x z : MState) :
  run (Star p) k x = Some z ->
  exists u v, rest x = u ++ v /\ all_in p u = true
              /\ k (mkMState (endIndex x + String.length u) v (captures x)) = Some z.
Proof. apply star_elim. Qed.

Lemma star_intro_run (p : ascii -> bool) (k : Cont) (x z : MState) (u v : string) :
  rest x = u ++ v -> all_in p u = true ->
  (forall c v', v = String c v' -> p c = false) ->
  k (mkMState (endIndex x + String.length u) v (captures x)) = Some z ->
  run (Star p) k x = Some z.
Proof. intros E Hu Hv Hk. simpl. rewrite E. now apply star_intro. Qed.

(** [(?:(?!_*$)|$)] after the letter: the state is kept, and what is left
    is empty or not a run of underscores. *)
Lemma letter_end_elim (x z : MState) :
  run (Alt (NotAhead (Cat (Star underscore) Eol)) Eol) Some x = Some z ->
  z = x /\ (all_in underscore (rest x) = false \/ rest x = "").
Proof.
  intros H. apply alt_elim in H as [H|H].
  - assert (Hn : run (NotAhead (Cat (Star underscore) Eol)) Some x <> None)
      by congruence.
    apply not_ahead_accepts in Hn. split; [|auto].
    simpl in H. destruct (star underscore _ _ _ _); congruence.
  - apply eol_elim in H as [E H]. split; [congruence | auto].
Qed.

Lemma letter_end_intro (x : MState) :
  all_in underscore (rest x) = false \/ rest x = "" ->
  run (Alt (NotAhead (Cat (Star underscore) Eol)) Eol) Some x = Some x.
Proof.
  intros H.
  change (match run (NotAhead (Cat (Star underscore) Eol)) Some x with
          | Some y => Some y
          | None => run Eol Some x
          end = Some x).
  destruct (run (NotAhead (Cat (Star underscore) Eol)) Some x) as [y|] eqn:E.
  - simpl in E. destruct (star underscore _ _ _ _); congruence.
  - destruct H as [H|H].
    + apply not_ahead_accepts in H. congruence.
    + simpl. now rewrite H.
Qed.

(** A search from index 0 is the attempt at index 0 when the pattern is
    anchored. *)
Lemma exec_anchored_0 (r : Pattern) (s : string) :
  exec (Cat Bol r) s 0 =
  match matchAt (Cat Bol r) 0 s with Some z => Some (0, z) | None => None end.
Proof.
  unfold exec. rewrite Nat.sub_0_r. cbn [search].
  destruct (matchAt (Cat Bol r) 0 s); [reflexivity|].
  apply search_anchored. lia.
Qed.

End MatcherRepetition.

(** ** The two patterns of camelcase *)

Section CamelcasePatterns.
Import RegExp CamelcaseStrings SnakeShape.

(** A match of [SNAKE_LETTER]: leading underscores and a first word (group
    1), a run of underscores, and one character (group 2) that ends the
    name or is followed by more than underscores. *)
Lemma SNAKE_LETTER_elim (s : string) (z : MState) :
  matchAt SNAKE_LETTER 0 s = Some z ->
  exists lead word sep c tail,
    s = lead ++ word ++ sep ++ String c tail
    /\ all_in underscore lead = true
    /\ word <> "" /\ all_in not_underscore word = true
    /\ sep <> "" /\ all_in underscore sep = true
    /\ dot c = true
    /\ (all_in underscore tail = false \/ tail = "")
    /\ endIndex z = String.length lead + String.length word + String.length sep + 1
    /\ capture 1 (captures z) = lead ++ word
    /\ capture 2 (captures z) = String c "".
Proof.
  unfold matchAt, SNAKE_LETTER. rewrite drop_0. intros H.
  apply cat_elim in H. apply bol_elim in H as [_ H].
  apply cat_elim in H. apply group_elim in H. apply cat_elim in H.
  apply star_elim_run in H as (lead & v1 & E1 & Hlead & H).
  cbn [rest endIndex captures] in E1, H.
  apply plus_elim in H as (word & v2 & E2 & Hne2 & Hword & H).
  cbv beta in H. cbn [rest endIndex captures] in E2, H.
  apply cat_elim in H.
  apply plus_elim in H as (sep & v3 & E3 & Hne3 & Hsep & H).
  cbn [rest endIndex captures] in E3, H.
  apply cat_elim in H. apply group_elim in H.
  apply class_elim in H as (c & tail & E4 & Hc & H).
  cbv beta in H. cbn [rest endIndex captures] in E4, H.
  apply letter_end_elim in H as [Hz Htail]. cbn [rest] in Htail.
  exists lead, word, sep, c, tail. subst v3 v2 v1 s z.
  cbn [endIndex captures capture Nat.eqb].
  repeat split; auto.
  - lia.
  - rewrite Nat.sub_0_r, <- append_assoc, Nat.add_0_l, <- length_append.
    apply take_append.
  - match goal with
    | |- JsString.take (S ?n - ?n) _ = _ => replace (S n - n) with 1 by lia
    end.
    reflexivity.
Qed.

(** Conversely, a name of that shape whose character after the separator
    is not an underscore is matched in this way at the first try. *)
Lemma SNAKE_LETTER_intro (lead word sep tail : string) (c : ascii) :
  all_in underscore lead = true ->
  word <> "" -> all_in not_underscore word = true ->
  sep <> "" -> all_in underscore sep = true ->
  dot c = true -> not_underscore c = true ->
  all_in underscore tail = false \/ tail = "" ->
  exists z,
    matchAt SNAKE_LETTER 0 (lead ++ word ++ sep ++ String c tail) = Some z
    /\ endIndex z = String.length lead + String.length word + String.length sep + 1
    /\ capture 1 (captures z) = lead ++ word
    /\ capture 2 (captures z) = String c "".
Proof.
  intros Hlead Hne2 Hword Hne3 Hsep Hdot Hc Htail.
  assert (Hw0 : forall a v', word ++ sep ++ String c tail = String a v' ->
                             underscore a = false).
  { intros a v' E. destruct word as [|b w]; [congruence|]. simpl in *.
    inversion E; subst. apply andb_true_iff in Hword as [Hb _].
    unfold not_underscore in Hb. now apply negb_true_iff in Hb. }
  assert (Hs0 : forall a v', sep ++ String c tail = String a v' ->
                             not_underscore a = false).
  { intros a v' E. destruct sep as [|b w]; [congruence|]. simpl in *.
    inversion E; subst. apply andb_true_iff in Hsep as [Hb _].
    unfold not_underscore, underscore in *. now rewrite Hb. }
  assert (Hc0 : forall a v', String c tail = String a v' -> underscore a = false).
  { intros a v' E. inversion E; subst. unfold not_underscore in Hc.
    now apply negb_true_iff in Hc. }
  eexists. split.
  - unfold matchAt, SNAKE_LETTER. rewrite drop_0.
    apply cat_intro. apply bol_intro; [reflexivity|].
    apply cat_intro. apply group_intro. apply cat_intro.
    eapply star_intro_run; [reflexivity | exact Hlead | exact Hw0 |].
    cbn [rest endIndex captures].
    eapply plus_intro; [reflexivity | exact Hne2 | exact Hword | exact Hs0 |].
    cbv beta. cbn [rest endIndex captures].
    apply cat_intro.
    eapply plus_intro; [reflexivity | exact Hne3 | exact Hsep | exact Hc0 |].
    cbn [rest endIndex captures].
    apply cat_intro. apply group_intro.
    eapply class_intro; [reflexivity | exact Hdot |].
    cbv beta. cbn [rest endIndex captures].
    apply letter_end_intro. exact Htail.
  - cbn [endIndex captures capture Nat.eqb]. repeat split.
    + lia.
    + rewrite Nat.sub_0_r, <- append_assoc, Nat.add_0_l, <- length_append.
      apply take_append.
    + match goal with
      | |- JsString.take (S ?n - ?n) _ = _ => replace (S n - n) with 1 by lia
      end.
      reflexivity.
Qed.

(** A match of [NON_SURROUNDING_UNDERSCORE] ends to the right of index 1. *)
Lemma NON_SURROUNDING_UNDERSCORE_end (s : string) (z : MState) :
  matchAt NON_SURROUNDING_UNDERSCORE 0 s = Some z -> 2 <= endIndex z.
Proof.
  unfold matchAt, NON_SURROUNDING_UNDERSCORE. rewrite drop_0. intros H.
  apply cat_elim in H. apply bol_elim in H as [_ H].
  apply cat_elim in H.
  apply star_elim_run in H as (lead & v1 & E1 & Hlead & H).
  cbn [rest endIndex captures] in E1, H.
  apply cat_elim in H.
  apply plus_elim in H as (word & v2 & E2 & Hne2 & Hword & H).
  cbn [rest endIndex captures] in E2, H.
  apply cat_elim in H. apply group_elim in H.
  apply plus_elim in H as (sep & v3 & E3 & Hne3 & Hsep & H).
  cbv beta in H. cbn [rest endIndex captures] in E3, H.
  simpl in H. destruct (star underscore _ _ _ _); [discriminate|].
  inversion H; subst z. cbn [endIndex].
  destruct word; [congruence|]. destruct sep; [congruence|]. simpl. lia.
Qed.

End CamelcasePatterns.

(** ** camelcase: names that are never snake-cased, and what the fix
       does *)

Section CamelcaseNames.
Import RegExp CamelcaseStrings SnakeShape NameNotions.

Lemma all_in_append (p : ascii -> bool) (a b : string) :
  all_in p (a ++ b) = all_in p a && all_in p b.
Proof.
  induction a as [|c a IH]; simpl; [reflexivity|].
  now rewrite IH, andb_assoc.
Qed.

(** A run of a class followed by something that does not begin in the
    class: the two parts are determined by the whole. *)
Lemma run_unique (p : ascii -> bool) (u1 u2 v1 v2 : string) :
  all_in p u1 = true -> all_in p u2 = true -> stops p v1 -> stops p v2 ->
  u1 ++ v1 = u2 ++ v2 -> u1 = u2 /\ v1 = v2.
Proof.
  revert u2. induction u1 as [|c u1 IH]; intros u2 H1 H2 S1 S2 E.
  - destruct u2 as [|d u2]; [auto|]. simpl in *.
    apply andb_true_iff in H2 as [Hd _].
    rewrite (S1 d (u2 ++ v2) E) in Hd. discriminate.
  - destruct u2 as [|d u2]; simpl in *.
    + apply andb_true_iff in H1 as [Hc _].
      rewrite (S2 c (u1 ++ v1) (eq_sym E)) in Hc. discriminate.
    + inversion E; subst d.
      apply andb_true_iff in H1 as [_ H1]. apply andb_true_iff in H2 as [_ H2].
      destruct (IH u2 H1 H2 S1 S2) as [-> ->]; auto.
Qed.

Lemma stops_underscore_word (w v : string) :
  w <> "" -> all_in not_underscore w = true -> stops underscore (w ++ v).
Proof.
  intros Hne Hw c v' E. destruct w as [|b w]; [congruence|]. simpl in *.
  inversion E; subst. apply andb_true_iff in Hw as [Hb _].
  unfold not_underscore in Hb. now apply negb_true_iff in Hb.
Qed.

Lemma stops_word_underscores (u v : string) :
  all_in underscore u = true -> v = "" \/ u <> "" -> stops not_underscore (u ++ v).
Proof.
  intros Hu Hv c v' E. destruct u as [|b u]; simpl in *.
  - destruct Hv as [->|Hv]; [discriminate | congruence].
  - inversion E; subst. apply andb_true_iff in Hu as [Hb _].
    unfold not_underscore, underscore in *. now rewrite Hb.
Qed.

(** A name that has underscores only around one word is not of the
    separated shape. *)
Lemma surrounded_not_separated (lead word trail : string) :
  all_in underscore lead = true -> all_in not_underscore word = true ->
  all_in underscore trail = true ->
  ~ separated (lead ++ word ++ trail).
Proof.
  intros Hl Hw Ht (l' & w' & s' & t' & E & Hl' & Hne' & Hw' & Hns' & Hs' & Ht').
  destruct word as [|b w].
  - (* the whole name is a run of underscores *)
    assert (Hall : all_in underscore (l' ++ w' ++ s' ++ t') = true).
    { rewrite <- E, all_in_append. simpl. now rewrite Hl, Ht. }
    rewrite !all_in_append in Hall.
    apply andb_true_iff in Hall as [_ Hall].
    apply andb_true_iff in Hall as [Hall _].
    destruct w' as [|c w']; [congruence|]. simpl in *.
    apply andb_true_iff in Hw' as [Hc _]. apply andb_true_iff in Hall as [Hc' _].
    unfold not_underscore, underscore in *. rewrite Hc' in Hc. discriminate.
  - destruct (run_unique underscore lead l' (String b w ++ trail) (w' ++ s' ++ t'))
      as [_ E2]; auto.
    + apply stops_underscore_word; [discriminate | exact Hw].
    + now apply stops_underscore_word.
    + destruct (run_unique not_underscore (String b w) w' trail (s' ++ t'))
        as [_ E3]; auto.
      * replace trail with (trail ++ "") by apply append_empty_r.
        apply stops_word_underscores; auto.
      * apply stops_word_underscores; auto.
      * rewrite E3, all_in_append, Hs' in Ht. simpl in Ht. congruence.
Qed.

(** X2.  A call of [isSnakeCase] that answers [true] makes the next call answer
    [false], whatever the name, and reset [lastIndex]: the rule cannot flag
    two identifiers that it visits one after the other. *)
Theorem isSnakeCase_never_twice (first next : string) (i : nat) :
  fst (isSnakeCase first i) = true ->
  isSnakeCase next (snd (isSnakeCase first i)) = (false, 0).
Proof.
  intros H. apply isSnakeCase_stale.
  unfold isSnakeCase, test in *.
  destruct (exec NON_SURROUNDING_UNDERSCORE first i) as [[pos z]|] eqn:E;
    simpl in *; [|discriminate].
  unfold NON_SURROUNDING_UNDERSCORE in E.
  destruct (exec_anchored_index _ _ _ _ _ E) as [-> ->].
  rewrite exec_anchored_0 in E.
  destruct (matchAt _ 0 first) as [z'|] eqn:M; [|discriminate].
  inversion E; subst z'.
  apply NON_SURROUNDING_UNDERSCORE_end in M. lia.
Qed.

Lemma isSnakeCase_never_twice_witness :
  fst (isSnakeCase "x_y" 0) = true
  /\ isSnakeCase "_x_y" (snd (isSnakeCase "x_y" 0)) = (false, 0).
Proof.
  split; [reflexivity|]. apply (isSnakeCase_never_twice "x_y" "_x_y" 0).
  reflexivity.
Defined.




(** X4.  A name with underscores only before and after one word, like
    [_protectedState], [__setPassword] or [__dir__], is never snake-cased,
    in any state of the pattern. *)
Theorem surrounding_underscores_are_not_snake_case
        (lead word trail : string) (i : nat) :
  all_in underscore lead = true ->
  all_in not_underscore word = true ->
  all_in underscore trail = true ->
  fst (isSnakeCase (lead ++ word ++ trail) i) = false.
Proof.
  intros Hl Hw Ht. destruct i as [|i].
  - destruct (fst (isSnakeCase (lead ++ word ++ trail) 0)) eqn:E; [|reflexivity].
    exfalso. apply (surrounded_not_separated lead word trail Hl Hw Ht).
    apply NON_SURROUNDING_UNDERSCORE_separated.
    unfold isSnakeCase, test, NON_SURROUNDING_UNDERSCORE in E.
    rewrite exec_anchored_0 in E. intros M.
    unfold NON_SURROUNDING_UNDERSCORE in M. rewrite M in E. discriminate.
  - rewrite isSnakeCase_stale by lia. reflexivity.
Qed.

Lemma surrounding_underscores_are_not_snake_case_witness :
  fst (isSnakeCase ("__" ++ "dir" ++ "__") 0) = false.
Proof.
  apply (surrounding_underscores_are_not_snake_case "__" "dir" "__" 0);
    reflexivity.
Defined.

End CamelcaseNames.

Section CamelcaseFix.
Import RegExp CamelcaseStrings SnakeShape NameNotions.

Lemma drop_match (lead word sep tail : string) (c : ascii) :
  JsString.drop (String.length lead + String.length word + String.length sep + 1)
    (lead ++ word ++ sep ++ String c tail) = tail.
Proof.
  rewrite <- !Nat.add_assoc, !drop_append. reflexivity.
Qed.

Lemma rebuild (lead word tail : string) (c : ascii) :
  ((lead ++ word) ++ JsString.toUpperCase (String c "")) ++ tail
  = lead ++ word ++ String (JsString.upper_char c) tail.
Proof.
  cbn [JsString.toUpperCase]. rewrite !append_assoc. reflexivity.
Qed.

(** X5.  The first separator is converted: in a name made of leading
    underscores, a first word, a run of underscores and a character [c]
    that is not an underscore (nor a line break), where [c] ends the name
    or is followed by more than underscores, the run is deleted and [c] is
    upper-cased; the rest of the name is kept as it is. *)
Theorem snakeToCamelCase_first_separator
        (lead word sep tail : string) (c : ascii) :
  all_in underscore lead = true ->
  word <> "" -> all_in not_underscore word = true ->
  sep <> "" -> all_in underscore sep = true ->
  dot c = true -> not_underscore c = true ->
  all_in underscore tail = false \/ tail = "" ->
  snakeToCamelCase (lead ++ word ++ sep ++ String c tail)
  = Some (lead ++ word ++ String (JsString.upper_char c) tail).
Proof.
  intros Hl Hne Hw Hns Hs Hd Hc Ht.
  destruct (SNAKE_LETTER_intro lead word sep tail c Hl Hne Hw Hns Hs Hd Hc Ht)
    as (z & M & Hend & H1 & H2).
  rewrite snakeToCamelCase_one_replacement. unfold SNAKE_LETTER in *.
  rewrite exec_anchored_0, M, H1, H2, Hend, drop_match, rebuild. reflexivity.
Qed.

Lemma snakeToCamelCase_first_separator_witness :
  snakeToCamelCase ("_" ++ "foo" ++ "__" ++ String "b" "ar_baz_")
  = Some ("_" ++ "foo" ++ String (JsString.upper_char "b") "ar_baz_").
Proof.
  apply (snakeToCamelCase_first_separator "_" "foo" "__" "ar_baz_" "b");
    try reflexivity; try discriminate.
  left. reflexivity.
Defined.




(** X8.  A name without an underscore is returned as it is. *)
Theorem snakeToCamelCase_without_underscore (name : string) :
  all_in not_underscore name = true -> snakeToCamelCase name = Some name.
Proof.
  intros H. rewrite snakeToCamelCase_one_replacement. unfold SNAKE_LETTER.
  rewrite exec_anchored_0. fold SNAKE_LETTER.
  destruct (matchAt SNAKE_LETTER 0 name) as [z|] eqn:M; [exfalso | reflexivity].
  apply SNAKE_LETTER_elim in M
    as (lead & word & sep & c & tail & E & Hl & Hne & Hw & Hns & Hs & _).
  rewrite E, !all_in_append in H.
  apply andb_true_iff in H as [_ H]. apply andb_true_iff in H as [_ H].
  apply andb_true_iff in H as [H _].
  destruct sep as [|b sep]; [congruence|]. simpl in *.
  apply andb_true_iff in Hs as [Hb _]. apply andb_true_iff in H as [Hb' _].
  unfold not_underscore, underscore in *. rewrite Hb in Hb'. discriminate.
Qed.

Lemma snakeToCamelCase_without_underscore_witness :
  snakeToCamelCase "fooBar" = Some "fooBar".
Proof.
  apply (snakeToCamelCase_without_underscore "fooBar"). reflexivity.
Defined.

End CamelcaseFix.

(** ** camelcase: the rule *)

Section CamelcaseRule.
Import Ast Fault Samples RegExp Camelcase SnakeShape RuleNotions.

(** X9.  The option is normalised: the rule runs with ["never"] exactly when
    the configuration says ["never"], and with ["always"] in every other
    case (no configuration, no key, any other value). *)
Theorem properties_of_normalised (config : option Options) :
  (properties_of config = "never"
   <-> exists o, config = Some o /\ opt_properties o = Some "never")
  /\ (properties_of config = "always" \/ properties_of config = "never").
Proof.
  unfold properties_of.
  destruct config as [[[p|]]|]; simpl.
  - destruct (String.eqb_spec p "always") as [->|Ha]; simpl.
    + split; [|auto]. split; [discriminate|].
      intros [o [E H]]. inversion E; subst o. simpl in H. discriminate.
    + destruct (String.eqb_spec p "never") as [->|Hn]; simpl.
      * split; [|auto]. split; [eauto | reflexivity].
      * split; [|auto]. split; [discriminate|].
        intros [o [E H]]. inversion E; subst o. simpl in H. congruence.
  - split; [|auto]. split; [discriminate|].
    intros [o [E H]]. inversion E; subst o. discriminate.
  - split; [|auto]. split; [discriminate|]. intros [o [E H]]. discriminate.
Qed.

(** X10.  An identifier directly under a call expression (the callee or an
    argument) is never reported, under either option; the earlier revision
    does not even test its name and leaves the whole state as it is. *)
Theorem call_identifiers_are_not_reported
        (properties : string) (anc : list Node) (node parent : Node) (st : State) :
  hd_error anc = Some parent ->
  type parent = "CallExpression" ->
  (exists st', Identifier properties anc node st = Some st'
               /\ sink st' = sink st /\ reported st' = reported st)
  /\ CamelcaseEarlier.Identifier properties anc node st = Some st.
Proof.
  intros Hanc Hp. split.
  - unfold Identifier.
    destruct (isSnakeCase (name_string node) (lastIndex st)) as [[|] i];
      cbn [negb]; [|eexists; split; [reflexivity | auto]].
    rewrite Hanc. cbn [bind]. unfold has_type. rewrite Hp.
    change (String.eqb "CallExpression" "CallExpression") with true.
    change (String.eqb "CallExpression" "MemberExpression") with false.
    change (String.eqb "CallExpression" "Property") with false.
    cbv iota. destruct (negb (String.eqb properties "never")); cbn [bind];
      eexists; split; try reflexivity; auto.
  - unfold CamelcaseEarlier.Identifier. rewrite Hanc. cbn [bind].
    unfold has_type. rewrite Hp. reflexivity.
Qed.

Lemma call_identifiers_are_not_reported_witness :
  (exists st', Identifier "always" [call_f_a_b] (ident 6 (2, 5) "a_b") init = Some st'
               /\ sink st' = sink init /\ reported st' = reported init)
  /\ CamelcaseEarlier.Identifier "always" [call_f_a_b] (ident 6 (2, 5) "a_b") init
     = Some init.
Proof.
  exact (call_identifiers_are_not_reported "always" [call_f_a_b]
           (ident 6 (2, 5) "a_b") call_f_a_b init eq_refl eq_refl).
Defined.

(** X11.  Under ["never"] the position in a member expression or a property does
    not matter: an identifier that tests as snake-cased and is not under a
    call expression is reported, once. *)
Theorem never_reports_every_position
        (anc : list Node) (node parent : Node) (st : State) :
  hd_error anc = Some parent ->
  type parent <> "CallExpression" ->
  fst (isSnakeCase (name_string node) (lastIndex st)) = true ->
  ~ In (nid node) (reported st) ->
  (exists st', Identifier "never" anc node st = Some st'
               /\ map rep_node (sink st') = (map rep_node (sink st) ++ [nid node])%list)
  /\ (exists st', CamelcaseEarlier.Identifier "never" anc node st = Some st'
                  /\ map rep_node (sink st')
                     = (map rep_node (sink st) ++ [nid node])%list).
Proof.
  intros Hanc Hp Hsnake Hnew.
  apply String.eqb_neq in Hp.
  assert (Hrep : forall i,
             is_reported (nid node) (mkState i (reported st) (sink st)) = false).
  { intros i. destruct (is_reported _ _) eqn:E; [|reflexivity].
    apply is_reported_In in E. contradiction. }
  split.
  - unfold Identifier.
    destruct (isSnakeCase (name_string node) (lastIndex st)) as [snake i].
    simpl in Hsnake. subst snake. cbn [negb].
    rewrite Hanc. cbn [bind].
    change (negb (String.eqb "never" "never")) with false. cbv iota zeta.
    cbn [bind]. unfold has_type. rewrite Hp.
    unfold report. cbn [rep_node]. rewrite Hrep.
    eexists. split; [reflexivity|]. cbn [sink]. now rewrite map_app.
  - unfold CamelcaseEarlier.Identifier. rewrite Hanc. cbn [bind].
    unfold has_type at 1. rewrite Hp.
    destruct (isSnakeCase (name_string node) (lastIndex st)) as [snake i].
    simpl in Hsnake. subst snake. cbn [negb].
    change (negb (String.eqb "never" "never")) with false. cbn [bind].
    unfold CamelcaseEarlier.report. rewrite Hrep. cbn [negb].
    eexists. split; [reflexivity|]. cbn [sink]. now rewrite map_app.
Qed.

(** The property of [x.a_b] is reported under ["never"]. *)
Lemma never_reports_every_position_witness :
  (exists st', Identifier "never" [x_dot_a_b] (ident 6 (2, 5) "a_b") init = Some st'
               /\ map rep_node (sink st') = [6])
  /\ (exists st', CamelcaseEarlier.Identifier "never" [x_dot_a_b]
                    (ident 6 (2, 5) "a_b") init = Some st'
                  /\ map rep_node (sink st') = [6]).
Proof.
  apply (never_reports_every_position [x_dot_a_b] (ident 6 (2, 5) "a_b")
           x_dot_a_b init eq_refl).
  - discriminate.
  - reflexivity.
  - intros [].
Defined.

End CamelcaseRule.

Section CamelcaseSoundness.
Import Ast Fault Samples RegExp Camelcase SnakeShape RuleNotions.

(** Whatever the state of the pattern, a name that tests as snake-cased
    has the separated shape and is not its own upper-case form. *)
Lemma isSnakeCase_true_inv (s : string) (i : nat) :
  fst (isSnakeCase s i) = true ->
  separated s /\ s <> JsString.toUpperCase s.
Proof.
  destruct i as [|i]; [|rewrite isSnakeCase_stale by lia; discriminate].
  unfold isSnakeCase, test, NON_SURROUNDING_UNDERSCORE.
  rewrite exec_anchored_0. fold NON_SURROUNDING_UNDERSCORE.
  destruct (matchAt NON_SURROUNDING_UNDERSCORE 0 s) as [z|] eqn:M;
    simpl; [|discriminate].
  intros H. apply negb_true_iff in H. unfold isUpperCase in H.
  apply String.eqb_neq in H. split; [|exact H].
  apply NON_SURROUNDING_UNDERSCORE_separated. congruence.
Qed.

(** An invariant that the callback keeps on the nodes of a list is kept by
    the traversal of that list. *)
Lemma dispatch_invariant_in {S : Type} (P : S -> Prop)
      (cb : list Node -> Node -> S -> option S) (t : string)
      (all : list (list Node * Node)) :
  (forall anc n st st',
      In (anc, n) all -> has_type t n = true ->
      P st -> cb anc n st = Some st' -> P st') ->
  forall vs st st',
    incl vs all -> P st -> dispatch cb t vs st = Some st' -> P st'.
Proof.
  intros Hcb. induction vs as [|[anc n] vs IH]; intros st st' Hin HP; simpl.
  - intros E. inversion E. now subst.
  - assert (Hvs : incl vs all) by (intros v Hv; apply Hin; now right).
    destruct (has_type t n) eqn:Ht.
    + destruct (cb anc n st) as [st1|] eqn:E1; [|discriminate].
      apply IH; [exact Hvs|]. eapply Hcb; try eassumption. apply Hin. now left.
    + now apply IH.
Qed.

Lemma report_justified (fix_of : Node -> FixFn) (root : Node) (obj : Report)
      (st : State) :
  justified fix_of root obj ->
  Forall (justified fix_of root) (sink st) ->
  Forall (justified fix_of root) (sink (report obj st)).
Proof.
  intros Hobj H. unfold report. destruct (is_reported (rep_node obj) st); [exact H|].
  cbn [sink]. apply Forall_app. split; [exact H | repeat constructor; exact Hobj].
Qed.

Lemma Identifier_justified (properties : string) (root : Node)
      (anc : list Node) (n : Node) (st st' : State) :
  In (anc, n) (visits [] root) -> has_type "Identifier" n = true ->
  Forall (justified rename_fix root) (sink st) ->
  Identifier properties anc n st = Some st' ->
  Forall (justified rename_fix root) (sink st').
Proof.
  intros Hin Ht H. unfold Identifier.
  destruct (isSnakeCase (name_string n) (lastIndex st)) as [snake i] eqn:E.
  destruct snake; cbn [negb]; [|intros E'; inversion E'; exact H].
  assert (Hs : fst (isSnakeCase (name_string n) (lastIndex st)) = true)
    by now rewrite E.
  apply isSnakeCase_true_inv in Hs as [Hsep Hup].
  destruct (hd_error anc) as [parent|]; cbn [bind]; [|discriminate].
  match goal with
  | |- bind ?e _ = _ -> _ => destruct e as [[|]|]; cbn [bind]
  end; intros E'; inversion E'; subst; [exact H|].
  apply (report_justified rename_fix root _ (mkState i (reported st) (sink st)));
    [|exact H].
  exists anc, n. apply String.eqb_eq in Ht. repeat split; auto.
Qed.

Lemma Identifier_earlier_justified (properties : string) (root : Node)
      (anc : list Node) (n : Node) (st st' : State) :
  In (anc, n) (visits [] root) -> has_type "Identifier" n = true ->
  Forall (justified (fun _ => NoFix) root) (sink st) ->
  CamelcaseEarlier.Identifier properties anc n st = Some st' ->
  Forall (justified (fun _ => NoFix) root) (sink st').
Proof.
  intros Hin Ht H. unfold CamelcaseEarlier.Identifier.
  destruct (hd_error anc) as [parent|]; cbn [bind]; [|discriminate].
  destruct (has_type "CallExpression" parent); [intros E'; inversion E'; now subst|].
  destruct (isSnakeCase (name_string n) (lastIndex st)) as [snake i] eqn:E.
  destruct snake; cbn [negb]; [|intros E'; inversion E'; exact H].
  assert (Hs : fst (isSnakeCase (name_string n) (lastIndex st)) = true)
    by now rewrite E.
  apply isSnakeCase_true_inv in Hs as [Hsep Hup].
  match goal with
  | |- bind ?e _ = _ -> _ => destruct e as [[|]|]; cbn [bind]
  end; intros E'; inversion E'; subst; [exact H|].
  unfold CamelcaseEarlier.report.
  destruct (is_reported _ _); cbn [negb sink]; [exact H|].
  apply Forall_app. split; [exact H | repeat constructor].
  exists anc, n. apply String.eqb_eq in Ht. repeat split; auto.
Qed.

(** X13.  No false positives: every report of a traversal is on an identifier of
    the tree whose name has an underscore between two words and is not a
    constant; it carries the message of the rule with the name and, in the
    current revision, the fix that replaces the identifier by
    [snakeToCamelCase] of its name (no fix in the earlier revision). *)
Theorem lint_reports_are_justified (config : option Options) (root : Node) :
  (forall st, lint config root = Some st ->
              Forall (justified rename_fix root) (sink st))
  /\ (forall st, CamelcaseEarlier.lint config root = Some st ->
                 Forall (justified (fun _ => NoFix) root) (sink st)).
Proof.
  split; intros st E.
  - eapply (dispatch_invariant_in
              (fun s => Forall (justified rename_fix root) (sink s)))
      with (st := init);
      [| apply incl_refl | constructor | exact E].
    intros anc n s s' Hin Ht. now apply Identifier_justified.
  - eapply (dispatch_invariant_in
              (fun s => Forall (justified (fun _ => NoFix) root) (sink s)))
      with (st := init);
      [| apply incl_refl | constructor | exact E].
    intros anc n s s' Hin Ht. now apply Identifier_earlier_justified.
Qed.

Lemma lint_reports_are_justified_witness :
  exists st, lint None prog_member = Some st
             /\ List.length (sink st) = 2
             /\ Forall (justified rename_fix prog_member) (sink st).
Proof.
  eexists. split; [reflexivity|]. split; [reflexivity|].
  apply (proj1 (lint_reports_are_justified None prog_member)). reflexivity.
Defined.

End CamelcaseSoundness.

(** ** valid-typeof: further properties *)

Section ValidTypeofMore.
Import Ast Fault Samples TokenSamples ValidTypeof ValidTypeofNotions TypeofNotions.

(** The callback on the [typeof] operand of a comparison with a literal. *)
Lemma UnaryExpression_comparison
      (config : option Options) (anc : list Node) (node parent sibling : Node)
      (sink : list Report) :
  operator node = Some "typeof" ->
  hd_error anc = Some parent ->
  type parent = "BinaryExpression" ->
  (exists op, operator parent = Some op /\ In op ["=="; "==="; "!="; "!=="]) ->
  opposite parent node = Some sibling ->
  type sibling = "Literal" ->
  UnaryExpression config anc node sink =
  Some (if includes VALID_TYPES (value sibling)
           || includes (customTypes config) (value sibling)
        then sink
        else (sink ++ [mkReport (nid sibling) None message [] NoFix])%list).
Proof.
  intros Hop Hanc Hparent [op [Hpop Hin]] Hsib Hlit.
  unfold UnaryExpression, operator_is, has_type, includes_operator.
  rewrite Hop, Hanc. cbn [Fault.bind]. rewrite Hparent, Hpop, !String.eqb_refl.
  assert (Ho : existsb (String.eqb op) OPERATORS = true).
  { apply existsb_exists. exists op. split; [exact Hin | apply String.eqb_refl]. }
  rewrite Ho. cbn [andb].
  unfold opposite in Hsib.
  destruct (field "left" parent) as [l|]; [|discriminate].
  destruct (field "right" parent) as [r|]; [|discriminate].
  destruct (same l node); inversion Hsib; subst; cbn [Fault.bind];
    rewrite Hlit, String.eqb_refl;
    destruct (includes VALID_TYPES (value sibling));
    destruct (includes (customTypes config) (value sibling)); reflexivity.
Qed.

Lemma includes_not_a_string (array : list string) (v : option JsValue) :
  not_a_string v -> includes array v = false.
Proof.
  intros H. destruct (includes array v) eqn:E; [|reflexivity].
  apply includes_In in E as [s [E _]]. now apply H in E.
Qed.

(** X14.  A literal that is not a string ([typeof x === 5], [typeof x === null])
    is reported under every configuration: no allow-list can admit it. *)
Theorem non_string_literal_is_reported
        (config : option Options) (anc : list Node) (node parent sibling : Node)
        (sink : list Report) :
  operator node = Some "typeof" ->
  hd_error anc = Some parent ->
  type parent = "BinaryExpression" ->
  (exists op, operator parent = Some op /\ In op ["=="; "==="; "!="; "!=="]) ->
  opposite parent node = Some sibling ->
  type sibling = "Literal" ->
  not_a_string (value sibling) ->
  UnaryExpression config anc node sink
  = Some (sink ++ [mkReport (nid sibling) None message [] NoFix])%list.
Proof.
  intros Hop Hanc Hparent Hops Hsib Hlit Hv.
  rewrite (UnaryExpression_comparison config anc node parent sibling sink)
    by assumption.
  now rewrite !includes_not_a_string.
Qed.

Lemma non_string_literal_is_reported_witness :
  UnaryExpression allow_bigint
    [comparison 1 "==" typeof_x (literal 4 (VNumber 5))] typeof_x []
  = Some [mkReport 4 None message [] NoFix].
Proof.
  apply (non_string_literal_is_reported allow_bigint
           [comparison 1 "==" typeof_x (literal 4 (VNumber 5))] typeof_x
           (comparison 1 "==" typeof_x (literal 4 (VNumber 5)))
           (literal 4 (VNumber 5)) []);
    try reflexivity.
  - exists "==". simpl. auto.
  - intros s. discriminate.
Defined.

Lemma includes_incl (a b : list string) (v : option JsValue) :
  incl a b -> includes a v = true -> includes b v = true.
Proof.
  intros Hab H. apply includes_In in H as [s [E Hin]].
  apply includes_In. exists s. auto.
Qed.

Lemma app_one_neq {A : Type} (l : list A) (x : A) : l <> (l ++ [x])%list.
Proof.
  intros E. apply (f_equal (@List.length A)) in E.
  rewrite length_app in E. simpl in E. lia.
Qed.

(** X15.  A longer allow-list only removes reports: what is reported under an
    allow-list is reported under every allow-list contained in it, for
    every node and every tree. *)
Theorem allow_list_is_monotone
        (small large : option Options) (anc : list Node) (node : Node)
        (sink : list Report) (r : Report) :
  incl (customTypes small) (customTypes large) ->
  UnaryExpression large anc node sink = Some (sink ++ [r])%list ->
  UnaryExpression small anc node sink = Some (sink ++ [r])%list.
Proof.
  intros Hincl. unfold UnaryExpression.
  destruct (operator_is "typeof" node);
    [|intros E; inversion E as [E']; now apply app_one_neq in E'].
  destruct (hd_error anc) as [parent|]; cbn [bind]; [|discriminate].
  destruct (has_type "BinaryExpression" parent
            && includes_operator OPERATORS (operator parent));
    [|intros E; inversion E as [E']; now apply app_one_neq in E'].
  destruct (if match field "left" parent with
               | Some l => same l node
               | None => false
               end
            then field "right" parent else field "left" parent) as [sibling|];
    cbn [bind]; [|discriminate].
  destruct (has_type "Literal" sibling);
    [|intros E; inversion E as [E']; now apply app_one_neq in E'].
  destruct (includes VALID_TYPES (value sibling)); cbn [negb andb];
    [intros E; inversion E as [E']; now apply app_one_neq in E'|].
  destruct (includes (customTypes large) (value sibling)) eqn:El; cbn [negb];
    [intros E; inversion E as [E']; now apply app_one_neq in E'|].
  destruct (includes (customTypes small) (value sibling)) eqn:Es; cbn [negb];
    [|auto].
  apply (includes_incl _ _ _ Hincl) in Es. congruence.
Qed.

Lemma allow_list_is_monotone_witness :
  UnaryExpression None [compare "===" "strnig"] typeof_x []
  = Some ([] ++ [mkReport 4 None message [] NoFix])%list.
Proof.
  apply (allow_list_is_monotone None allow_bigint).
  - intros x [].
  - reflexivity.
Defined.

(** X16.  The side does not matter: [typeof x == lit] and [lit == typeof x] get
    the same verdict. *)
Theorem typeof_side_does_not_matter
        (config : option Options) (anc : list Node) (id : nat) (op : string)
        (node other : Node) (sink : list Report) :
  same other node = false ->
  UnaryExpression config (comparison id op node other :: anc) node sink
  = UnaryExpression config (comparison id op other node :: anc) node sink.
Proof.
  intros Hdiff. unfold UnaryExpression.
  destruct (operator_is "typeof" node); [|reflexivity].
  cbn [hd_error bind]. unfold has_type, includes_operator, comparison, field.
  cbn [type operator kids lookup].
  change (String.eqb "left" "left") with true.
  change (String.eqb "left" "right") with false.
  change (String.eqb "right" "left") with false.
  change (String.eqb "right" "right") with true.
  cbv iota. rewrite Hdiff.
  unfold same at 1. rewrite Nat.eqb_refl. reflexivity.
Qed.

Lemma typeof_side_does_not_matter_witness :
  UnaryExpression None
    [comparison 1 "===" typeof_x (literal 4 (VString "strnig"))] typeof_x []
  = UnaryExpression None
      [comparison 1 "===" (literal 4 (VString "strnig")) typeof_x] typeof_x [].
Proof.
  apply (typeof_side_does_not_matter None [] 1 "===" typeof_x
           (literal 4 (VString "strnig")) []).
  reflexivity.
Defined.

End ValidTypeofMore.

(** ** padded-blocks: further properties *)

Section PaddedBlocksMore.
Import Ast Source Fault Samples TokenSamples PaddedBlocks PaddedBlocksNotions.

(** X17.  Which callbacks exist follows from the configuration alone: a string
    (also the empty one, also none at all) registers the callback for
    blocks only; an object registers exactly the callbacks of its keys.
    Both revisions. *)
Theorem callbacks_follow_the_configuration (sc : SourceCode) :
  (forall config,
      (config = None \/ exists s, config = Some (CString s)) ->
      SwitchStatement (PaddedBlocks.create sc config) = None
      /\ ClassBody (PaddedBlocks.create sc config) = None
      /\ BlockStatement (PaddedBlocks.create sc config) <> None
      /\ SwitchStatement (PaddedBlocksFix.create sc config) = None
      /\ ClassBody (PaddedBlocksFix.create sc config) = None
      /\ BlockStatement (PaddedBlocksFix.create sc config) <> None)
  /\ (forall b s c,
         let config := Some (CObject b s c) in
         (SwitchStatement (PaddedBlocks.create sc config) = None <-> s = None)
         /\ (BlockStatement (PaddedBlocks.create sc config) = None <-> b = None)
         /\ (ClassBody (PaddedBlocks.create sc config) = None <-> c = None)
         /\ (SwitchStatement (PaddedBlocksFix.create sc config) = None <-> s = None)
         /\ (BlockStatement (PaddedBlocksFix.create sc config) = None <-> b = None)
         /\ (ClassBody (PaddedBlocksFix.create sc config) = None <-> c = None)).
Proof.
  split.
  - intros config [->|[s ->]].
    + repeat split; try reflexivity; discriminate.
    + destruct s as [|a s]; repeat split; try reflexivity; discriminate.
  - intros b s c config. subst config.
    destruct b, s, c; cbn; repeat split; intros; congruence.
Qed.



Lemma after_In (sc : SourceCode) (r : nat * nat) (t : Token) :
  In t (after sc r) -> In t (tokensAndComments sc).
Proof.
  unfold after. rewrite filter_In. tauto.
Qed.



End PaddedBlocksMore.

(** The cases of a run of [checkPadding]: each step may fault, padding is
    required or not, and each side has blank lines or not. *)
Ltac pad_cases :=
  repeat match goal with
         | |- context [Fault.bind ?e _] =>
             let E := fresh "E" in
             destruct e eqn:E; cbn [Fault.bind]; [|discriminate]
         end;
  match goal with
  | |- context [PaddedBlocks.truthy ?v] => destruct (PaddedBlocks.truthy v)
  end;
  repeat match goal with
         | |- context [(?z =? 0)%Z] => destruct (z =? 0)%Z eqn:?; cbn [negb]
         end.

Section PaddedBlocksReports.
Import Ast Source Fault Samples TokenSamples PaddedBlocks PaddedBlocksNotions.

(** One run of [checkPadding] adds at most two reports, all on the node,
    behind the reports that are there. *)
Lemma checkPadding_appends (sc : SourceCode) (options : Options) (node : Node)
      (sink sink' : list Report) :
  PaddedBlocks.checkPadding sc options node sink = Some sink'
  \/ PaddedBlocksFix.checkPadding sc options node sink = Some sink' ->
  exists added,
    sink' = (sink ++ added)%list /\ List.length added <= 2
    /\ Forall (fun r => rep_node r = nid node) added.
Proof.
  intros [H|H]; revert H;
    unfold PaddedBlocks.checkPadding, PaddedBlocksFix.checkPadding, report_at;
    pad_cases; intros H; inversion H; subst; clear H;
    rewrite <- ?app_assoc;
    try (exists []; rewrite app_nil_r; repeat constructor; fail);
    eexists; (split; [reflexivity|]); split; simpl; auto; repeat constructor.
Qed.

(** X19.  ["always"] and ["never"] are opposite: on a block with a body, each of
    the two sides is reported under exactly one of them, so the reports of
    the two configurations add up to two.  Both revisions. *)
Theorem always_and_never_are_opposite
        (sc : SourceCode) (node : Node) (under_always under_never : list Report) :
  type node = "BlockStatement" ->
  elements "body" node <> [] ->
  (call (BlockStatement (PaddedBlocks.create sc (Some (CString "always")))) node []
   = Some under_always ->
   call (BlockStatement (PaddedBlocks.create sc (Some (CString "never")))) node []
   = Some under_never ->
   List.length under_always + List.length under_never = 2)
  /\ (call (BlockStatement (PaddedBlocksFix.create sc (Some (CString "always"))))
        node [] = Some under_always ->
      call (BlockStatement (PaddedBlocksFix.create sc (Some (CString "never"))))
        node [] = Some under_never ->
      List.length under_always + List.length under_never = 2).
Proof.
  intros Ht Hbody.
  assert (Hlen : (List.length (elements "body" node) =? 0) = false).
  { destruct (elements "body" node); [congruence | reflexivity]. }
  split;
    cbn [call BlockStatement PaddedBlocks.create PaddedBlocksFix.create
         options_of blocks hasOwnProperty];
    rewrite Hlen;
    unfold PaddedBlocks.checkPadding, PaddedBlocksFix.checkPadding,
      requirePaddingFor, has_type, report_at;
    rewrite Ht, String.eqb_refl;
    repeat match goal with
           | |- context [bind ?e _] =>
               let E := fresh "E" in
               destruct e eqn:E; cbn [bind]; [|discriminate]
           end;
    change (truthy (blocks (mkOptions (Some (is_always "always")) None None)))
      with true;
    change (truthy (blocks (mkOptions (Some (is_always "never")) None None)))
      with false;
    cbv iota;
    repeat match goal with
           | |- context [(?z =? 0)%Z] => destruct (z =? 0)%Z eqn:?; cbn [negb]
           end;
    intros Ha Hn; inversion Ha; inversion Hn; reflexivity.
Qed.

(** The block without blank lines: two reports under ["always"], none
    under ["never"]. *)
Lemma always_and_never_are_opposite_witness :
  List.length
    [ mkReport 1 (Some (1, 0)%Z) ALWAYS_MESSAGE [] NoFix;
      mkReport 1 (Some (3, 0)%Z) ALWAYS_MESSAGE [] NoFix ]
  + List.length (@nil Report) = 2.
Proof.
  apply (proj1 (always_and_never_are_opposite tight_source tight_block
                  [ mkReport 1 (Some (1, 0)%Z) ALWAYS_MESSAGE [] NoFix;
                    mkReport 1 (Some (3, 0)%Z) ALWAYS_MESSAGE [] NoFix ]
                  [] eq_refl ltac:(discriminate)));
    reflexivity.
Defined.

End PaddedBlocksReports.

(** ** All rules: reports are only added *)

Section AppendOnly.
Import Ast Source Fault Camelcase PaddedBlocks.

Lemma Identifier_appends (properties : string) (anc : list Node) (node : Node)
      (st st' : State) :
  Identifier properties anc node st = Some st'
  \/ CamelcaseEarlier.Identifier properties anc node st = Some st' ->
  exists added,
    sink st' = (sink st ++ added)%list /\ List.length added <= 1
    /\ Forall (fun r => rep_node r = nid node) added.
Proof.
  assert (Hnone : forall s s' : State, sink s' = sink s ->
            exists added, sink s' = (sink s ++ added)%list
                          /\ List.length added <= 1
                          /\ Forall (fun r => rep_node r = nid node) added).
  { intros s s' E. exists []. rewrite app_nil_r. repeat split; auto. }
  intros [H|H]; revert H.
  - unfold Identifier.
    destruct (isSnakeCase (name_string node) (lastIndex st)) as [[|] i];
      cbn [negb]; [|intros E; inversion E; now apply Hnone].
    destruct (hd_error anc) as [parent|]; cbn [bind]; [|discriminate].
    match goal with
    | |- bind ?e _ = _ -> _ => destruct e as [[|]|]; cbn [bind]
    end; intros E; inversion E; subst; clear E; [now apply Hnone|].
    unfold report. destruct (is_reported _ _); [now apply Hnone|].
    cbn [sink]. eexists. split; [reflexivity|]. repeat constructor.
  - unfold CamelcaseEarlier.Identifier.
    destruct (hd_error anc) as [parent|]; cbn [bind]; [|discriminate].
    destruct (has_type "CallExpression" parent);
      [intros E; inversion E; now apply Hnone|].
    destruct (isSnakeCase (name_string node) (lastIndex st)) as [[|] i];
      cbn [negb]; [|intros E; inversion E; now apply Hnone].
    match goal with
    | |- bind ?e _ = _ -> _ => destruct e as [[|]|]; cbn [bind]
    end; intros E; inversion E; subst; clear E; [now apply Hnone|].
    unfold CamelcaseEarlier.report. destruct (is_reported _ _); cbn [negb];
      [now apply Hnone|].
    cbn [sink]. eexists. split; [reflexivity|]. repeat constructor.
Qed.

(** X23.  No callback of the four rules removes or changes a report that is
    there: each one leaves the list of reports as it is or adds to its end,
    one report at most for camelcase, new-parens and valid-typeof, two at
    most for padded-blocks, and, but for valid-typeof (which reports the
    literal), on the node that is visited. *)
Theorem callbacks_only_append :
  (forall properties anc node st st',
      Identifier properties anc node st = Some st'
      \/ CamelcaseEarlier.Identifier properties anc node st = Some st' ->
      exists added,
        sink st' = (sink st ++ added)%list /\ List.length added <= 1
        /\ Forall (fun r => rep_node r = nid node) added)
  /\ (forall sc node reports,
         exists added,
           NewParens.NewExpression sc node reports = (reports ++ added)%list
           /\ List.length added <= 1
           /\ Forall (fun r => rep_node r = nid node) added)
  /\ (forall config anc node reports reports',
         ValidTypeof.UnaryExpression config anc node reports = Some reports' ->
         exists added,
           reports' = (reports ++ added)%list /\ List.length added <= 1)
  /\ (forall sc config node reports reports' callback,
         In (Some callback)
            [ SwitchStatement (PaddedBlocks.create sc config);
              BlockStatement (PaddedBlocks.create sc config);
              ClassBody (PaddedBlocks.create sc config);
              SwitchStatement (PaddedBlocksFix.create sc config);
              BlockStatement (PaddedBlocksFix.create sc config);
              ClassBody (PaddedBlocksFix.create sc config) ] ->
         callback node reports = Some reports' ->
         exists added,
           reports' = (reports ++ added)%list /\ List.length added <= 2
           /\ Forall (fun r => rep_node r = nid node) added).
Proof.
  split; [|split; [|split]].
  - intros. eapply Identifier_appends. eassumption.
  - intros sc node reports. unfold NewParens.NewExpression.
    destruct (negb _).
    + eexists. split; [reflexivity|]. repeat constructor.
    + exists []. rewrite app_nil_r. repeat constructor.
  - intros config anc node reports reports'. unfold ValidTypeof.UnaryExpression.
    assert (Hnone : exists added : list Report,
               reports = (reports ++ added)%list /\ List.length added <= 1).
    { exists []. rewrite app_nil_r. auto. }
    destruct (operator_is "typeof" node); [|intros E; inversion E; subst; exact Hnone].
    destruct (hd_error anc) as [parent|]; cbn [bind]; [|discriminate].
    destruct (_ && _); [|intros E; inversion E; subst; exact Hnone].
    match goal with
    | |- bind ?e _ = _ -> _ => destruct e as [sibling|]; cbn [bind]; [|discriminate]
    end.
    destruct (has_type "Literal" sibling);
      [|intros E; inversion E; subst; exact Hnone].
    destruct (_ && _); intros E; inversion E; subst; [|exact Hnone].
    eexists. split; [reflexivity|]. simpl. lia.
  - intros sc config node reports reports' callback Hin Hcall.
    assert (Hnone : forall r', Some reports = Some r' ->
               exists added, r' = (reports ++ added)%list /\ List.length added <= 2
                             /\ Forall (fun r => rep_node r = nid node) added).
    { intros r' E. inversion E. exists []. rewrite app_nil_r. repeat split; auto. }
    unfold PaddedBlocks.create, PaddedBlocksFix.create in Hin.
    cbn [SwitchStatement BlockStatement ClassBody In] in Hin.
    destruct (switches (options_of config)); destruct (blocks (options_of config));
      destruct (classes (options_of config)); cbn [hasOwnProperty] in Hin;
      repeat match goal with
             | H : _ \/ _ |- _ => destruct H as [H|H]
             | H : False |- _ => destruct H
             | H : None = Some _ |- _ => discriminate H
             | H : Some _ = Some callback |- _ =>
                 injection H as H; subst callback; cbv beta in Hcall
             end;
      match type of Hcall with
      | (if ?c then _ else _) = _ => destruct c
      end;
      try (now apply Hnone);
      eapply checkPadding_appends; eauto.
Qed.

End AppendOnly.

(** ** padded-blocks: the fixes of the second revision *)

Section PaddedBlocksFixes.
Import Ast Source Fault Samples TokenSamples PaddedBlocks PaddedBlocksNotions
       FixNotions.

Lemma removePadding_text (sc : SourceCode) (token : Token) (dir : Z) (e : Fix) :
  PaddedBlocksFix.removePadding sc token dir = Some e ->
  fix_text e = String "010" "".
Proof.
  unfold PaddedBlocksFix.removePadding.
  destruct (dir =? 1)%Z; [|destruct (dir =? -1)%Z; [|discriminate]];
    destruct (PaddedBlocksFix.getAdjacentLineToken sc token (Some dir));
    cbn [bind]; try discriminate; intros E; inversion E; reflexivity.
Qed.

Lemma addPadding_text (sc : SourceCode) (token : Token) (dir : Z) (e : Fix) :
  PaddedBlocksFix.addPadding sc token dir = Some e ->
  fix_text e = String "010" "".
Proof.
  unfold PaddedBlocksFix.addPadding.
  destruct (PaddedBlocksFix.getAdjacentLineToken sc token None);
    cbn [bind]; [|discriminate].
  destruct (dir =? 1)%Z; intros E; inversion E; reflexivity.
Qed.

(** X21.  The first revision never offers a fix; every report of the second
    revision has one, and an edit that it yields writes one line break and
    nothing else. *)
Theorem padded_blocks_fixes (sc : SourceCode) (options : Options) (node : Node)
        (reports : list Report) :
  (forall reports',
      PaddedBlocks.checkPadding sc options node reports = Some reports' ->
      exists added, reports' = (reports ++ added)%list
                    /\ Forall (fun r => rep_fix r = NoFix) added)
  /\ (forall reports',
         PaddedBlocksFix.checkPadding sc options node reports = Some reports' ->
         exists added, reports' = (reports ++ added)%list
                       /\ Forall (fun r => line_break_only (rep_fix r)) added).
Proof.
  assert (Hfix : forall o : option Fix,
             (forall e, o = Some e -> fix_text e = String "010" "") ->
             line_break_only (FixWith o)).
  { intros o H. exists o. auto. }
  split; intros reports';
    unfold PaddedBlocks.checkPadding, PaddedBlocksFix.checkPadding, report_at;
    pad_cases; intros H; inversion H; subst; clear H;
    rewrite <- ?app_assoc;
    try (exists []; rewrite app_nil_r; repeat constructor; fail);
    eexists; (split; [reflexivity|]);
    repeat constructor; cbn [rep_fix];
    apply Hfix; intros e; (apply addPadding_text || apply removePadding_text).
Qed.

Lemma padded_blocks_fixes_witness :
  (exists added,
      [ mkReport 1 (Some (2, 0)%Z) NEVER_MESSAGE [] NoFix;
        mkReport 1 (Some (5, 0)%Z) NEVER_MESSAGE [] NoFix ] = ([] ++ added)%list
      /\ Forall (fun r => rep_fix r = NoFix) added).
Proof.
  apply (proj1 (padded_blocks_fixes block_source
                  (options_of never) block_node [])).
  reflexivity.
Defined.

Lemma hd_error_In {A : Type} (l : list A) (x : A) : hd_error l = Some x -> In x l.
Proof. destruct l; simpl; [discriminate | intros E; inversion E; now left]. Qed.

(** X22.  The fix for a missing blank line looks for its place after the brace
    on both sides: the line break is inserted at or after the end of the
    brace, also for the closing brace, where the blank line is missing
    before it; and there is no edit at all when nothing follows the
    brace. *)
Theorem addPadding_is_placed_after_the_brace
        (sc : SourceCode) (token : Token) (dir : Z) :
  ranges_ordered sc ->
  (forall e, PaddedBlocksFix.addPadding sc token dir = Some e ->
             snd (tok_range token) <= fst (fix_range e)
             /\ fst (fix_range e) = snd (fix_range e))
  /\ (getTokenOrCommentAfter sc token = None ->
      PaddedBlocksFix.addPadding sc token dir = None).
Proof.
  intros Hord. unfold PaddedBlocksFix.addPadding, PaddedBlocksFix.getAdjacentLineToken.
  change ((1 =? 1)%Z) with true. cbv iota. split.
  - intros e. destruct (getTokenOrCommentAfter sc token) as [a|] eqn:E;
      cbn [bind]; [|discriminate].
    unfold getTokenOrCommentAfter in E. apply hd_error_In in E.
    assert (Hin : In a (tokensAndComments sc)) by (eapply after_In; exact E).
    unfold after in E. apply filter_In in E as [_ Hle]. apply Nat.leb_le in Hle.
    unfold ranges_ordered in Hord. rewrite Forall_forall in Hord.
    specialize (Hord a Hin).
    destruct (dir =? 1)%Z; intros H; inversion H; subst; simpl in *; lia.
  - intros ->. reflexivity.
Qed.

(** For the closing brace of the block that [y;] follows, the line break
    goes behind [y]. *)
Lemma addPadding_is_placed_after_the_brace_witness :
  PaddedBlocksFix.addPadding followed_source (tok "Punctuator" "}" (7, 8) 3 0) (-1)
  = Some (mkFix (10, 10) (String "010" ""))
  /\ 8 <= 10.
Proof.
  split; [reflexivity|].
  apply (proj1 (addPadding_is_placed_after_the_brace followed_source
                  (tok "Punctuator" "}" (7, 8) 3 0) (-1)
                  ltac:(repeat constructor))
           (mkFix (10, 10) (String "010" "")) eq_refl).
Defined.

End PaddedBlocksFixes.

(** ** Witnesses of earlier lemmas *)

Section MoreWitnesses.
Import Ast Source Fault Samples TokenSamples Camelcase RuleNotions
       PaddedBlocks PaddedBlocksNotions.

(** The property of [x.a_b;] is not reported under ["always"]. *)
Lemma other_property_not_reported_witness :
  Identifier "always" [x_dot_a_b; exprStmt 3 (0, 6) x_dot_a_b; prog_property]
    (ident 6 (2, 5) "a_b") init = Some (mkState 2 [] [])
  /\ sink (mkState 2 [] []) = sink init.
Proof.
  split; [reflexivity|].
  apply (proj1 (other_property_not_reported "always"
                  [x_dot_a_b; exprStmt 3 (0, 6) x_dot_a_b; prog_property]
                  (ident 6 (2, 5) "a_b") x_dot_a_b (exprStmt 3 (0, 6) x_dot_a_b)
                  (ident 5 (0, 1) "x") init (mkState 2 [] [])
                  ltac:(discriminate) eq_refl eq_refl eq_refl eq_refl eq_refl
                  ltac:(discriminate))).
  reflexivity.
Defined.


(** The callbacks on the samples: one report added, none removed. *)
Lemma callbacks_only_append_witness :
  exists added,
    [mkReport 6 None message [("name", "a_b")] (rename_fix (ident 6 (2, 5) "a_b"))]
    = ([] ++ added)%list
    /\ List.length added <= 1
    /\ Forall (fun r => rep_node r = 6) added.
Proof.
  apply (proj1 callbacks_only_append "never" [x_dot_a_b] (ident 6 (2, 5) "a_b")
           init
           (mkState 2 [6]
              [mkReport 6 None message [("name", "a_b")]
                 (rename_fix (ident 6 (2, 5) "a_b"))])).
  left. reflexivity.
Defined.

End MoreWitnesses.
